(** * Greenlight: the user data-access layer, request context and start-up

    A shallow embedding of
    - [internal/data/users.go] and [internal/data/models.go]: the [User]
      struct, its validation, and [UserModel.Insert], [UserModel.GetByEmail]
      and [UserModel.Update] running their SQL statements against a model of
      the [users] table;
    - package [main]: [contextSetUser] and [contextGetUser] on the request
      context, and [openDB] of [cmd/api/main.go] with its process-wide
      singleton.

    Go strings are byte strings, so they are Rocq [string]s and [len] is
    [String.length].  [int64], [int] and [time.Duration] values are [Z];
    the code performs no arithmetic on them apart from the constant
    [3*time.Second]. *)

From Stdlib Require Import ZArith String Ascii List Bool Lia.
From stdpp Require Import base option list gmap strings.

Local Open Scope Z_scope.

(** ** Errors *)

(** The error values that reach this code.  The first three are the
    sentinel values of package [data]; the others are produced by the
    driver ([pgx]), the store, [context], or the password hasher. *)
Inductive error : Type :=
| ErrDuplicateEmail                              (* data.ErrDuplicateEmail *)
| ErrRecordNotFound                              (* data.ErrRecordNotFound *)
| ErrEditConflict                                (* data.ErrEditConflict *)
| ErrNoRows                                      (* pgx.ErrNoRows *)
| PgError (severity message code : string)       (* *pgconn.PgError *)
| DeadlineExceeded                               (* context.DeadlineExceeded *)
| ErrOther (text : string).                      (* errors.New(text) of any other origin *)

#[global] Instance error_eq_dec : EqDecision error.
Proof. solve_decision. Defined.

(** [err.Error()] *)
Definition Error (e : error) : string :=
  match e with
  | ErrDuplicateEmail => "duplicate email"
  | ErrRecordNotFound => "record not found"
  | ErrEditConflict => "edit conflict"
  | ErrNoRows => "no rows in result set"
  | PgError severity message code =>
      severity +:+ ": " +:+ message +:+ " (SQLSTATE " +:+ code +:+ ")"
  | DeadlineExceeded => "context deadline exceeded"
  | ErrOther text => text
  end.

(** [errors.Is(err, target)] on values that wrap nothing. *)
Definition errors_Is (err target : error) : bool := bool_decide (err = target).

(** The errors that package [data] declares itself. *)
Definition named (e : error) : Prop :=
  e = ErrDuplicateEmail \/ e = ErrRecordNotFound \/ e = ErrEditConflict.

(** The errors that come out of the driver or the store. *)
Definition from_persistence (e : error) : Prop :=
  match e with
  | ErrNoRows | PgError _ _ _ | DeadlineExceeded | ErrOther _ => True
  | _ => False
  end.

Definition dq : string := String "034"%char EmptyString.

(** The literal both [Insert] and [Update] compare [err.Error()] with. *)
Definition duplicate_email_text : string :=
  "ERROR: duplicate key value violates unique constraint " +:+ dq +:+
  "users_email_key" +:+ dq +:+ " (SQLSTATE 23505)".

(** ** [context] and [time] *)

Definition Duration := Z.
Definition Second : Duration := 1000000000.
Definition Time := Z.

(** Pointers to [data.User] values: [None] is the nil pointer. *)
Definition UserPtr := option positive.

(** Values of interface type, as far as this program stores them in a
    context: the dynamic type is the constructor. *)
Inductive Any : Type :=
| nil_interface
| string_value (s : string)                     (* string *)
| contextKey (s : string)                       (* main.contextKey *)
| user_pointer (p : UserPtr)                    (* *data.User *)
| other_value (type_name repr : string).        (* a value of any other type *)

#[global] Instance Any_eq_dec : EqDecision Any.
Proof. solve_decision. Defined.

Inductive Context : Type :=
| Background
| WithValue (parent : Context) (key val : Any)
| WithTimeout (parent : Context) (timeout : Duration).

(** [ctx.Value(key)]: the innermost binding of an equal key (same dynamic
    type, same value), the nil interface when there is none. *)
Fixpoint Value (ctx : Context) (key : Any) : Any :=
  match ctx with
  | Background => nil_interface
  | WithValue parent k v => if decide (k = key) then v else Value parent key
  | WithTimeout parent _ => Value parent key
  end.

(** Time left before [ctx] is done, counted from the moment the context was
    built; [None] when it has no deadline. *)
Fixpoint Deadline (ctx : Context) : option Duration :=
  match ctx with
  | Background => None
  | WithValue parent _ _ => Deadline parent
  | WithTimeout parent d =>
      match Deadline parent with
      | Some d' => Some (Z.min d d')
      | None => Some d
      end
  end.

(** ** The [users] table *)

Record Row : Type := {
  row_created_at : Time;
  row_name : string;
  row_email : string;
  row_password_hash : string;
  row_activated : bool;
  row_version : Z
}.

(** Modelled from the spec: the schema of [users] is not among the sources.
    The table is keyed by [id] (primary key, drawn from a sequence) and
    [email] is unique; the unique constraint carries the name the code
    matches on.  A new row starts at version 1 and is stamped with
    [clock], the store's [now()]. *)
Record Store : Type := {
  users : gmap Z Row;
  users_id_seq : Z;
  clock : Time
}.

Definition unique_violation (constraint : string) : error :=
  PgError "ERROR"
    ("duplicate key value violates unique constraint " +:+ dq +:+ constraint +:+ dq)
    "23505".

(** Some row other than [except] holds [email]. *)
Definition email_taken (m : gmap Z Row) (except : option Z) (email : string) : bool :=
  bool_decide (map_Exists (fun i r => Some i <> except /\ row_email r = email) m).

Definition find_by_email (m : gmap Z Row) (email : string) : option (Z * Row) :=
  head (filter (fun ir => row_email ir.2 = email) (map_to_list m)).

(** [INSERT INTO users (name, email, password_hash, activated)
     VALUES ($1, $2, $3, $4) RETURNING id, created_at, version].
    The sequence value is consumed whether or not the row goes in. *)
Definition exec_insert (name email password_hash : string) (activated : bool)
    (s : Store) : (error + (Z * Time * Z)) * Store :=
  let id := users_id_seq s in
  let s1 := {| users := users s; users_id_seq := id + 1; clock := clock s |} in
  match users s !! id with
  | Some _ => (inl (unique_violation "users_pkey"), s1)
  | None =>
      if email_taken (users s) None email
      then (inl (unique_violation "users_email_key"), s1)
      else
        let row := {| row_created_at := clock s; row_name := name;
                      row_email := email; row_password_hash := password_hash;
                      row_activated := activated; row_version := 1 |} in
        (inr (id, clock s, 1),
         {| users := <[id := row]> (users s); users_id_seq := id + 1;
            clock := clock s |})
  end.

(** [SELECT id, created_at, name, email, password_hash, activated, version
     FROM users WHERE email = $1] *)
Definition exec_select_by_email (email : string) (s : Store)
    : (error + (Z * Row)) * Store :=
  match find_by_email (users s) email with
  | Some ir => (inr ir, s)
  | None => (inl ErrNoRows, s)
  end.

(** [UPDATE users SET name = $1, email = $2, password_hash = $3,
     activated = $4, version = version + 1
     WHERE id = $5 AND version = $6 RETURNING version] *)
Definition exec_update (name email password_hash : string) (activated : bool)
    (id version : Z) (s : Store) : (error + Z) * Store :=
  match users s !! id with
  | Some r =>
      if decide (row_version r = version) then
        if email_taken (users s) (Some id) email
        then (inl (unique_violation "users_email_key"), s)
        else
          let r' := {| row_created_at := row_created_at r; row_name := name;
                       row_email := email; row_password_hash := password_hash;
                       row_activated := activated;
                       row_version := row_version r + 1 |} in
          (inr (row_version r'),
           {| users := <[id := r']> (users s); users_id_seq := users_id_seq s;
              clock := clock s |})
      else (inl ErrNoRows, s)
  | None => (inl ErrNoRows, s)
  end.

(** The statements this package sends, with their arguments. *)
Inductive Stmt : Type :=
| InsertUser (name email password_hash : string) (activated : bool)
| SelectUserByEmail (email : string)
| UpdateUser (name email password_hash : string) (activated : bool) (id version : Z).

(** A statement together with the type of the row it returns and what it
    does to the store. *)
Record Query (A : Type) : Type := {
  sql : Stmt;
  run : Store -> (error + A) * Store
}.
Arguments sql {A} _.
Arguments run {A} _ _.

Definition insert_user name email password_hash activated : Query (Z * Time * Z) :=
  {| sql := InsertUser name email password_hash activated;
     run := exec_insert name email password_hash activated |}.

Definition select_user_by_email email : Query (Z * Row) :=
  {| sql := SelectUserByEmail email; run := exec_select_by_email email |}.

Definition update_user name email password_hash activated id version : Query Z :=
  {| sql := UpdateUser name email password_hash activated id version;
     run := exec_update name email password_hash activated id version |}.

(** ** The connection and the calls made over it *)

(** What one call meets on the way to the store.  [latency] is the time
    until the reply reaches the caller ([None]: it never does); [refusal]
    is a raw error the driver or the store raises in place of running the
    statement (no connection, a server-side failure); [lands] tells
    whether a statement whose reply misses the deadline still takes
    effect in the store. *)
Record Conn : Type := {
  latency : option Duration;
  refusal : option error;
  lands : bool
}.

(** A call as the pool sees it: the context and the statement. *)
Record Call : Type := {
  call_ctx : Context;
  call_stmt : Stmt
}.

(** The state the data layer acts on: the store, the calls issued so far,
    and the time callers have spent blocked on the store. *)
Record World : Type := {
  db : Store;
  issued : list Call;
  waited : Duration
}.

(** Computations over the world; [None] is a call that never returns. *)
Definition M (A : Type) : Type := World -> option (A * World).

Definition ret {A} (a : A) : M A := fun w => Some (a, w).

Definition bind {A B} (m : M A) (k : A -> M B) : M B :=
  fun w => match m w with
           | Some (a, w') => k a w'
           | None => None
           end.

Notation "x <-- m ;; k" := (bind m (fun x => k))
  (at level 100, m at next level, right associativity).

(** Whether the reply arrives before the context is done. *)
Definition in_time (ctx : Context) (c : Conn) : bool :=
  match latency c, Deadline ctx with
  | Some t, Some d => bool_decide (t < d)
  | Some _, None => true
  | None, _ => false
  end.

(** What the store holds once the call is over. *)
Definition store_after {A} (ctx : Context) (c : Conn) (q : Query A) (s : Store) : Store :=
  match refusal c with
  | Some _ => s
  | None => if in_time ctx c || lands c then (run q s).2 else s
  end.

(** [m.DB.QueryRow(ctx, query, args...).Scan(...)]: the row, or the error
    [Scan] reports.  The caller is blocked until the reply or until the
    context is done, whichever comes first; with neither, for ever.  The
    reply is taken whole: one that breaks off between the row and its end,
    where [Scan] has filled the destinations and still reports an error,
    is outside this model, and nothing below says what the struct holds
    after it. *)
Definition QueryRow {A} (c : Conn) (ctx : Context) (q : Query A) : M (error + A) :=
  fun w =>
    let log := issued w ++ [{| call_ctx := ctx; call_stmt := sql q |}] in
    let s' := store_after ctx c q (db w) in
    if in_time ctx c then
      let t := default 0 (latency c) in
      let r := match refusal c with
               | Some e => inl e
               | None => (run q (db w)).1
               end in
      Some (r, {| db := s'; issued := log; waited := waited w + t |})
    else
      match Deadline ctx with
      | Some d => Some (inl DeadlineExceeded,
                        {| db := s'; issued := log; waited := waited w + d |})
      | None => None
      end.

(** ** [data.User] and [data.UserModel] *)

Record User : Type := {
  ID : Z;
  CreatedAt : Time;
  Name : string;
  Email : string;
  Password : string;
  Activated : bool;
  Version : Z
}.

(** What a method of [UserModel] runs against: the password hasher
    ([argon2id.CreateHash] with its default parameters, which draws a
    random salt and may fail doing so) and the connection. *)
Record Env : Type := {
  CreateHash : string -> string + error;
  conn : Conn
}.

Definition Insert (env : Env) (user : User) : M (option error * User) :=
  match CreateHash env (Password user) with
  | inr err => ret (Some err, user)
  | inl hashedPassword =>
      let ctx := WithTimeout Background (3 * Second) in
      r <-- QueryRow (conn env) ctx
              (insert_user (Name user) (Email user) hashedPassword (Activated user)) ;;
      match r with
      | inl err =>
          if String.eqb (Error err) duplicate_email_text
          then ret (Some ErrDuplicateEmail, user)
          else ret (Some err, user)
      | inr (id, created_at, version) =>
          ret (None,
               {| ID := id; CreatedAt := created_at; Name := Name user;
                  Email := Email user; Password := Password user;
                  Activated := Activated user; Version := version |})
      end
  end.

Definition GetByEmail (env : Env) (email : string) : M (option User * option error) :=
  let ctx := WithTimeout Background (3 * Second) in
  r <-- QueryRow (conn env) ctx (select_user_by_email email) ;;
  match r with
  | inl err =>
      if errors_Is err ErrNoRows
      then ret (None, Some ErrRecordNotFound)
      else ret (None, Some err)
  | inr (id, row) =>
      ret (Some {| ID := id; CreatedAt := row_created_at row;
                   Name := row_name row; Email := row_email row;
                   Password := row_password_hash row;
                   Activated := row_activated row;
                   Version := row_version row |},
           None)
  end.

Definition Update (env : Env) (user : User) : M (option error * User) :=
  match CreateHash env (Password user) with
  | inr err => ret (Some err, user)
  | inl hashedPassword =>
      let ctx := WithTimeout Background (3 * Second) in
      r <-- QueryRow (conn env) ctx
              (update_user (Name user) (Email user) hashedPassword
                 (Activated user) (ID user) (Version user)) ;;
      match r with
      | inl err =>
          if String.eqb (Error err) duplicate_email_text
          then ret (Some ErrDuplicateEmail, user)
          else if errors_Is err ErrNoRows
          then ret (Some ErrEditConflict, user)
          else ret (Some err, user)
      | inr version =>
          ret (None,
               {| ID := ID user; CreatedAt := CreatedAt user; Name := Name user;
                  Email := Email user; Password := Password user;
                  Activated := Activated user; Version := version |})
      end
  end.

(** *** A small store to run the methods on *)

Definition alice_row : Row :=
  {| row_created_at := 100; row_name := "Alice"; row_email := "alice@example.com";
     row_password_hash := "$argon2id$alice"; row_activated := true; row_version := 3 |}.

Definition bob_row : Row :=
  {| row_created_at := 200; row_name := "Bob"; row_email := "bob@example.com";
     row_password_hash := "$argon2id$bob"; row_activated := false; row_version := 1 |}.

Definition store0 : Store :=
  {| users := <[1 := alice_row]> (<[2 := bob_row]> ∅); users_id_seq := 3; clock := 1000 |}.

Definition world0 : World := {| db := store0; issued := []; waited := 0 |}.

Definition healthy : Conn := {| latency := Some 2000000; refusal := None; lands := true |}.
Definition stalled : Conn := {| latency := None; refusal := None; lands := false |}.

Definition hasher (password : string) : string + error := inl ("$argon2id$" +:+ password).
Definition env0 : Env := {| CreateHash := hasher; conn := healthy |}.

Definition alice (version : Z) : User :=
  {| ID := 1; CreatedAt := 100; Name := "Alice A."; Email := "alice@example.com";
     Password := "correct horse"; Activated := true; Version := version |}.


(** The context every method of [UserModel] builds. *)
Definition call_ctx3 : Context := WithTimeout Background (3 * Second).

(** The call reaches the store, which runs it and answers before the
    three seconds are over. *)
Definition served (c : Conn) : Prop :=
  refusal c = None /\ in_time call_ctx3 c = true.


(** ** Validation of a [User] *)

(** Package [internal/validator] is not among the sources: [ValidateUser]
    is written against its interface.  [Check v ok key message] is
    [v.Check(ok, key, message)], [Valid v] is [v.Valid()], and
    [Matches value rx] is [validator.Matches(value, rx)]. *)
Class ValidatorAPI : Type := {
  Validator : Type;
  Check : Validator -> bool -> string -> string -> Validator;
  Valid : Validator -> bool;
  Regexp : Type;
  Matches : string -> Regexp -> bool;
  EmailRX : Regexp
}.

(** What the callers rely on: a check that holds records nothing, a check
    that fails leaves the validator with an error. *)
Class ValidatorLaws (api : ValidatorAPI) : Prop := {
  Check_holds : forall v key message, Check v true key message = v;
  Check_fails : forall v key message, Valid (Check v false key message) = false
}.

(** [s != ""] *)
Definition nonempty (s : string) : bool := negb (String.eqb s "").

Section Validate.
Context {api : ValidatorAPI}.

Definition ValidateEmail (v : Validator) (email : string) : Validator :=
  let v := Check v (nonempty email) "email" "must be provided" in
  Check v (Matches email EmailRX) "email" "must be a valid email address".

Definition ValidatePasswordPlaintext (v : Validator) (password : string) : Validator :=
  let v := Check v (nonempty password) "password" "must be provided" in
  let v := Check v (8 <=? String.length password)%nat "password"
             "must be at least 8 characters long" in
  Check v (String.length password <=? 72)%nat "password"
    "must not be more than 72 characters long".

(** [user] is passed by pointer; the second component is the value behind
    the pointer when the function returns. *)
Definition ValidateUser (v : Validator) (user : User) : Validator * User :=
  let v := Check v (nonempty (Name user)) "name" "must be provided" in
  let v := Check v (String.length (Name user) <=? 500)%nat "name"
             "must not be more than 500 characters long" in
  let v := ValidateEmail v (Email user) in
  let v := ValidatePasswordPlaintext v (Password user) in
  (v, user).
End Validate.

(** A validator to run [ValidateUser] with: errors keyed by field, the
    first message for a key is kept; the pattern is a predicate on the
    string.  [has_at] stands in for the e-mail pattern. *)
Definition map_Check (v : gmap string string) (ok : bool) (key message : string)
    : gmap string string :=
  if ok then v
  else match v !! key with
       | Some _ => v
       | None => <[key := message]> v
       end.

Fixpoint has_at (s : string) : bool :=
  match s with
  | EmptyString => false
  | String c rest => Ascii.eqb c "@"%char || has_at rest
  end.

#[global] Instance map_validator : ValidatorAPI := {|
  Validator := gmap string string;
  Check := map_Check;
  Valid := fun v => bool_decide (v = ∅);
  Regexp := string -> bool;
  Matches := fun value rx => rx value;
  EmailRX := has_at
|}.

(** ** The JSON form of a [User] *)

#[warnings="-register-all"]
Inductive JSON : Type :=
| JNumber (n : Z)
| JString (s : string)
| JBool (b : bool)
| JObject (members : list (string * JSON)).

(** A struct field as [encoding/json] sees it: its name, the name in its
    [json] tag, and its encoded value. *)
Record Field : Type := {
  field_name : string;
  json_tag : string;
  field_json : User -> JSON
}.

Section Marshal.
(** [time.Time]'s own JSON form (the RFC 3339 text of the instant). *)
Variable RFC3339 : Time -> string.

(** The fields of [User] with their tags, in declaration order. *)
Definition User_fields : list Field :=
  [ {| field_name := "ID"; json_tag := "id";
       field_json := fun u => JNumber (ID u) |};
    {| field_name := "CreatedAt"; json_tag := "created_at";
       field_json := fun u => JString (RFC3339 (CreatedAt u)) |};
    {| field_name := "Name"; json_tag := "name";
       field_json := fun u => JString (Name u) |};
    {| field_name := "Email"; json_tag := "email";
       field_json := fun u => JString (Email u) |};
    {| field_name := "Password"; json_tag := "-";
       field_json := fun u => JString (Password u) |};
    {| field_name := "Activated"; json_tag := "activated";
       field_json := fun u => JBool (Activated u) |};
    {| field_name := "Version"; json_tag := "-";
       field_json := fun u => JNumber (Version u) |} ].

(** [json.Marshal] on a struct: one member per field, under the tag's
    name; a field tagged ["-"] is left out. *)
Definition Marshal_member (u : User) (f : Field) : option (string * JSON) :=
  if String.eqb (json_tag f) "-" then None
  else Some (json_tag f, field_json f u).

Definition Marshal (u : User) : JSON :=
  JObject (omap (Marshal_member u) User_fields).
End Marshal.

Definition keys (j : JSON) : list string :=
  match j with
  | JObject members => members.*1
  | _ => []
  end.

(** Two users that agree on every field but [Password] and [Version]. *)
Definition same_outward (u1 u2 : User) : Prop :=
  ID u1 = ID u2 /\ CreatedAt u1 = CreatedAt u2 /\ Name u1 = Name u2 /\
  Email u1 = Email u2 /\ Activated u1 = Activated u2.

(** ** The user in the request context *)

(** Of [http.Request], the context and everything else. *)
Record Request : Type := {
  req_ctx : option Context;
  req_rest : string
}.

(** [r.Context()] *)
Definition Request_Context (r : Request) : Context := default Background (req_ctx r).

(** [r.WithContext(ctx)], for a context that is not nil. *)
Definition Request_WithContext (r : Request) (ctx : Context) : Request :=
  {| req_ctx := Some ctx; req_rest := req_rest r |}.

Definition userContextKey : Any := contextKey "user".

Inductive outcome (A : Type) : Type :=
| Returns (a : A)
| Panics (message : string).
Arguments Returns {A} _.
Arguments Panics {A} _.

Definition contextSetUser (r : Request) (user : UserPtr) : Request :=
  let ctx := WithValue (Request_Context r) userContextKey (user_pointer user) in
  Request_WithContext r ctx.

Definition contextGetUser (r : Request) : outcome UserPtr :=
  match Value (Request_Context r) userContextKey with
  | user_pointer user => Returns user
  | _ => Panics "missing user value in request context"
  end.

(** Some context of the chain binds [userContextKey]. *)
Fixpoint binds_user (ctx : Context) : bool :=
  match ctx with
  | Background => false
  | WithValue parent k _ => bool_decide (k = userContextKey) || binds_user parent
  | WithTimeout parent _ => binds_user parent
  end.

(** ** Opening the connection pool *)

Record config : Type := {
  port : string;
  env : string;
  db_dsn : string;
  db_maxOpenConns : string;
  db_maxIdleTime : string;
  limiter_rps : string;
  limiter_burst : string;
  limiter_enabled : bool
}.

(** A pool, known by the DSN it was built for.  [db.Config()] hands out a
    copy of the configuration, so the two assignments to it leave the
    pool as it is. *)
Record Pool : Type := { pool_dsn : string }.

Record postgres : Type := { pool : Pool }.

(** The package-level variables [pgInstance] and [pgOnce]. *)
Record Globals : Type := {
  pgInstance : option postgres;
  pgOnce : bool
}.

Definition initial_globals : Globals := {| pgInstance := None; pgOnce := false |}.

(** What [openDB] calls outside this repository. *)
Record Platform : Type := {
  pgxpool_New : string -> Pool + error;
  Atoi : string -> Z + error;
  ParseDuration : string -> Duration + error;
  Ping : Pool -> option error
}.

(** The function handed to [pgOnce.Do].  It reads and writes the [err]
    declared by [openDB] only in its first statement; from
    [i, err := strconv.Atoi(...)] on, [err] is a variable of its own.
    Result: [openDB]'s [err] and [pgInstance]. *)
Definition once_body (sys : Platform) (cfg : config)
    (err : option error) (instance : option postgres)
    : option error * option postgres :=
  match pgxpool_New sys (db_dsn cfg) with
  | inr e => (Some e, instance)
  | inl db =>
      let err := None in
      match Atoi sys (db_maxOpenConns cfg) with
      | inr _ => (err, instance)
      | inl i =>
          match ParseDuration sys (db_maxIdleTime cfg) with
          | inr _ => (err, instance)
          | inl duration =>
              match Ping sys db with
              | Some _ => (err, instance)
              | None => (err, Some {| pool := db |})
              end
          end
      end
  end.

Definition openDB (sys : Platform) (cfg : config) (g : Globals)
    : (option postgres * option error) * Globals :=
  let err : option error := None in
  let '(err, g) :=
    if pgOnce g then (err, g)
    else
      let '(err, instance) := once_body sys cfg err (pgInstance g) in
      (err, {| pgInstance := instance; pgOnce := true |}) in
  ((pgInstance g, None), g).

(** Some step of the once-block fails. *)
Definition startup_fails (sys : Platform) (cfg : config) : Prop :=
  match pgxpool_New sys (db_dsn cfg) with
  | inr _ => True
  | inl db =>
      (exists e, Atoi sys (db_maxOpenConns cfg) = inr e) \/
      (exists e, ParseDuration sys (db_maxIdleTime cfg) = inr e) \/
      (exists e, Ping sys db = Some e)
  end.

(** ** Vocabulary of the statements below *)

(** No row has this [id] with this [version]: the [WHERE] clause of the
    update selects nothing. *)
Definition no_matching_row (s : Store) (id version : Z) : Prop :=
  match users s !! id with
  | Some r => row_version r <> version
  | None => True
  end.

(** The one call [Update] makes for [user], given the hash of its password. *)
Definition update_call (user : User) (hashedPassword : string) : Call :=
  {| call_ctx := call_ctx3;
     call_stmt := UpdateUser (Name user) (Email user) hashedPassword
                    (Activated user) (ID user) (Version user) |}.

(** Some row other than the one with id [except] holds [email]. *)
Definition email_in_use (s : Store) (except : option Z) (email : string) : Prop :=
  exists i r, users s !! i = Some r /\ Some i <> except /\ row_email r = email.

(** Every stored id lies below the next value of the sequence. *)
Definition seq_ahead (s : Store) : Prop :=
  map_Forall (fun i _ => i < users_id_seq s) (users s).

(** The [User] that [GetByEmail] builds from a row. *)
Definition user_of_row (id : Z) (row : Row) : User :=
  {| ID := id; CreatedAt := row_created_at row; Name := row_name row;
     Email := row_email row; Password := row_password_hash row;
     Activated := row_activated row; Version := row_version row |}.

(** Between [w] and [w'] the caller was blocked for at most three seconds,
    and every call issued in between carries a three-second deadline. *)
Definition within_deadline (w w' : World) : Prop :=
  waited w' <= waited w + 3 * Second /\
  exists calls,
    issued w' = issued w ++ calls /\
    Forall (fun c => Deadline (call_ctx c) = Some (3 * Second)) calls.

(** The store's complaint about a zero byte in a text value. *)
Definition invalid_byte_sequence : error :=
  PgError "ERROR"
    ("invalid byte sequence for encoding " +:+ dq +:+ "UTF8" +:+ dq +:+ ": 0x00")
    "22021".

Definition rejecting : Conn :=
  {| latency := Some 2000000; refusal := Some invalid_byte_sequence; lands := false |}.

Definition env_rejecting : Env := {| CreateHash := hasher; conn := rejecting |}.
Definition env_stalled : Env := {| CreateHash := hasher; conn := stalled |}.

Definition nul_user : User :=
  {| ID := 0; CreatedAt := 0; Name := String "000"%char "Carol";
     Email := "carol@example.com"; Password := "pa55word!"; Activated := false;
     Version := 0 |}.

Definition no_entropy : error := ErrOther "unexpected EOF".

Definition failing_hasher (password : string) : string + error := inr no_entropy.

(** What the checks of [ValidateUser] ask of a user. *)
Definition acceptable {api : ValidatorAPI} (user : User) : Prop :=
  Name user <> "" /\ (String.length (Name user) <= 500)%nat /\
  Email user <> "" /\ Matches (Email user) EmailRX = true /\
  (8 <= String.length (Password user))%nat /\
  (String.length (Password user) <= 72)%nat.

Definition carol : User :=
  {| ID := 0; CreatedAt := 0; Name := "Carol"; Email := "carol@example.com";
     Password := "pa55word!"; Activated := false; Version := 0 |}.

(** A platform on which everything works but the parsing of the
    connection limit. *)
Definition sample_platform : Platform :=
  {| pgxpool_New := fun dsn => inl {| pool_dsn := dsn |};
     Atoi := fun s =>
       if String.eqb s "25" then inl 25
       else inr (ErrOther ("strconv.Atoi: parsing " +:+ s +:+ ": invalid syntax"));
     ParseDuration := fun s =>
       if String.eqb s "15m" then inl (900 * Second)
       else inr (ErrOther ("time: invalid duration " +:+ s));
     Ping := fun _ => None |}.

Definition sample_config (maxOpenConns : string) : config :=
  {| port := "4000"; env := "development"; db_dsn := "postgres://greenlight@localhost/greenlight";
     db_maxOpenConns := maxOpenConns; db_maxIdleTime := "15m";
     limiter_rps := "2"; limiter_burst := "4"; limiter_enabled := true |}.

(** A request whose context carries a deadline and a value under the
    string ["user"], which is not [userContextKey]. *)
Definition plain_request : Request :=
  {| req_ctx := Some (WithTimeout
                        (WithValue Background (string_value "user")
                           (user_pointer (Some 7%positive)))
                        (5 * Second));
     req_rest := "GET /v1/movies" |}.

(** A stand-in for the RFC 3339 text of an instant. *)
Definition sample_RFC3339 (t : Time) : string :=
  if decide (t = 100) then "1970-01-01T00:00:00.0000001Z" else "2023-09-09T12:00:00Z".

Definition alice_with (password : string) : User :=
  {| ID := 1; CreatedAt := 100; Name := "Alice A."; Email := "alice@example.com";
     Password := password; Activated := true; Version := 3 |}.

(** The length of a UTF-8 text in characters, which is what the messages
    of the checks speak of: the bytes that do not continue a character
    (those not of the form [10xxxxxx]).  [len], and so [String.length],
    counts every byte. *)
Definition continuation (c : ascii) : bool :=
  match c with
  | Ascii _ _ _ _ _ _ b6 b7 => b7 && negb b6
  end.

Fixpoint characters (s : string) : nat :=
  match s with
  | EmptyString => 0
  | String c rest => (if continuation c then 0 else 1) + characters rest
  end.

Fixpoint repeat_string (n : nat) (s : string) : string :=
  match n with
  | O => EmptyString
  | S n' => s +:+ repeat_string n' s
  end.

(** Seven characters in thirteen bytes. *)
Definition cyrillic_password : string := "пароль1".

(** A user whose name has 251 characters in 502 bytes. *)
Definition accented_user : User :=
  {| ID := 1; CreatedAt := 100; Name := repeat_string 251 "é";
     Email := "alice@example.com"; Password := "correct horse"; Activated := true;
     Version := 3 |}.

(** ** Vocabulary of the further properties *)

(** No two rows hold the same email. *)
Definition emails_unique (s : Store) : Prop :=
  forall i j r1 r2,
    users s !! i = Some r1 -> users s !! j = Some r2 ->
    row_email r1 = row_email r2 -> i = j.

(** The one call [Insert] makes for [user], given the hash of its password. *)
Definition insert_call (user : User) (hashedPassword : string) : Call :=
  {| call_ctx := call_ctx3;
     call_stmt := InsertUser (Name user) (Email user) hashedPassword (Activated user) |}.

(** The row [Insert] creates for [user] in store [s]. *)
Definition inserted_row (s : Store) (user : User) (hashedPassword : string) : Row :=
  {| row_created_at := clock s; row_name := Name user; row_email := Email user;
     row_password_hash := hashedPassword; row_activated := Activated user;
     row_version := 1 |}.

(** The struct as [Insert] leaves it on success in store [s]. *)
Definition inserted_user (s : Store) (user : User) : User :=
  {| ID := users_id_seq s; CreatedAt := clock s; Name := Name user;
     Email := Email user; Password := Password user;
     Activated := Activated user; Version := 1 |}.

Definition dave : User :=
  {| ID := 0; CreatedAt := 0; Name := "Dave"; Email := "dave@example.com";
     Password := "tr0ub4dor&3"; Activated := false; Version := 0 |}.

(** A store whose sequence was left behind the stored ids. *)
Definition store_behind : Store :=
  {| users := users store0; users_id_seq := 2; clock := 1000 |}.

Definition world_behind : World := {| db := store_behind; issued := []; waited := 0 |}.

(** [ctx'] was built on [ctx] by [context.WithTimeout] and by
    [context.WithValue] under keys other than [userContextKey]. *)
Inductive builds_on (ctx : Context) : Context -> Prop :=
| builds_on_same : builds_on ctx ctx
| builds_on_value ctx' key val :
    builds_on ctx ctx' -> key <> userContextKey ->
    builds_on ctx (WithValue ctx' key val)
| builds_on_timeout ctx' timeout :
    builds_on ctx ctx' -> builds_on ctx (WithTimeout ctx' timeout).

(** A request further down the chain: a deadline and a trace id were added
    after the user. *)
Definition traced_request (user : UserPtr) : Request :=
  {| req_ctx := Some (WithValue
                        (WithTimeout
                           (Request_Context (contextSetUser plain_request user))
                           (2 * Second))
                        (string_value "trace") (string_value "7f3a"));
     req_rest := "GET /v1/movies" |}.

(** [openDB] called again and again, each time with the platform and the
    configuration of the moment: the results in order and the globals at
    the end. *)
Fixpoint openDB_calls (calls : list (Platform * config)) (g : Globals)
    : list (option postgres * option error) * Globals :=
  match calls with
  | [] => ([], g)
  | (sys, cfg) :: rest =>
      let '(r, g) := openDB sys cfg g in
      let '(rs, g) := openDB_calls rest g in
      (r :: rs, g)
  end.

(** A platform on which the store cannot be reached. *)
Definition unreachable_platform : Platform :=
  {| pgxpool_New := fun dsn => inl {| pool_dsn := dsn |};
     Atoi := Atoi sample_platform;
     ParseDuration := ParseDuration sample_platform;
     Ping := fun _ => Some DeadlineExceeded |}.

(** ** [data.Models] and [main] *)

(** The three models of [internal/data/models.go], each the struct around
    its pool. *)
Record MovieModel : Type := { MovieModel_DB : Pool }.
Record TokenModel : Type := { TokenModel_DB : Pool }.
Record UserModel : Type := { UserModel_DB : Pool }.

Record Models : Type := {
  Movies : MovieModel;
  Tokens : TokenModel;
  Users : UserModel
}.

Definition NewModels (db : Pool) : Models :=
  {| Movies := {| MovieModel_DB := db |};
     Tokens := {| TokenModel_DB := db |};
     Users := {| UserModel_DB := db |} |}.

(** Of [application], the configuration and the models (the logger is
    the one every event below goes through). *)
Record application : Type := {
  app_config : config;
  app_models : Models
}.

(** What [main] does that can be seen from outside the process. *)
Inductive Event : Type :=
| PrintFatal (err : error)                                  (* logger.PrintFatal(err, nil) *)
| PrintInfo (message : string) (properties : gmap string string)
| ListenAndServe (addr : string) (app : application)        (* srv.ListenAndServe() *)
| PoolClose (p : Pool).                                     (* the deferred db.pool.Close() *)

(** How the process ends. *)
Inductive Ending : Type :=
| main_returns
| process_exits                         (* os.Exit *)
| process_panics (message : string)
| serves_forever.                       (* ListenAndServe does not return *)

(** What [main] meets outside this repository.  [flag_Parse] is the
    configuration read from the flags over their environment defaults, or
    [None] when [flag.Parse] ends the process.  Package [jsonlog] is not
    among the sources: [fatal_exits] tells whether [PrintFatal] ends the
    process or comes back.  [Sprintf] is [fmt.Sprintf] on a format without
    arguments; [serve] is the error [ListenAndServe] returns, [None] while
    it keeps serving. *)
Record Host : Type := {
  godotenv_Load : option error;
  flag_Parse : option config;
  fatal_exits : bool;
  Sprintf : string -> string;
  serve : string -> option error
}.

(** A step of [main]: the events so far, and the ending or the value to
    go on with. *)
Definition Proc (E A : Type) : Type := list E * (Ending + A).

Definition pure {E A} (a : A) : Proc E A := ([], inr a).

Definition and_then {E A B} (m : Proc E A) (k : A -> Proc E B) : Proc E B :=
  match m with
  | (events, inl ending) => (events, inl ending)
  | (events, inr a) => let '(events', r) := k a in (events ++ events', r)
  end.

Notation "x <~~ m ;; k" := (and_then m (fun x => k))
  (at level 100, m at next level, right associativity).

Definition emit {E} (e : E) : Proc E unit := ([e], inr tt).

Definition stop {E A} (ending : Ending) : Proc E A := ([], inl ending).

Definition fatal (h : Host) (err : error) : Proc Event unit :=
  ([PrintFatal err], if fatal_exits h then inl process_exits else inr tt).

(** [defer d]: [d] runs when the rest of the function returns or panics,
    not when the process exits or never leaves the function. *)
Definition deferred {E A} (d : E) (rest : Proc E A) : Proc E A :=
  match rest with
  | (events, inr a) => (events ++ [d], inr a)
  | (events, inl (process_panics message)) => (events ++ [d], inl (process_panics message))
  | (events, inl ending) => (events, inl ending)
  end.

Definition nil_dereference : string :=
  "runtime error: invalid memory address or nil pointer dereference".

(** [main] of [cmd/api/main.go].  [defer db.pool.Close()] evaluates
    [db.pool] on the spot, which panics when [db] is nil. *)
Definition main (h : Host) (sys : Platform) (g : Globals) : list Event * Ending :=
  let run : Proc Event unit :=
    _ <~~ match godotenv_Load h with
          | Some err => fatal h err
          | None => pure tt
          end ;;
    cfg <~~ match flag_Parse h with
            | Some cfg => pure cfg
            | None => stop process_exits
            end ;;
    let '((db, err), _) := openDB sys cfg g in
    _ <~~ match err with
          | Some err => fatal h err
          | None => pure tt
          end ;;
    match db with
    | None => stop (process_panics nil_dereference)
    | Some db =>
        deferred (PoolClose (pool db))
          (_ <~~ emit (PrintInfo "database connection pool established" ∅) ;;
           let app := {| app_config := cfg; app_models := NewModels (pool db) |} in
           let addr := Sprintf h (":" +:+ port cfg) in
           _ <~~ emit (PrintInfo "starting server"
                         (<["addr" := addr]> (<["env" := env cfg]> ∅))) ;;
           _ <~~ emit (ListenAndServe addr app) ;;
           match serve h addr with
           | Some err => fatal h err
           | None => stop serves_forever
           end)
    end in
  match run with
  | (events, inl ending) => (events, ending)
  | (events, inr _) => (events, main_returns)
  end.

(** A host on which the environment file loads, the flags parse to the
    sample configuration and the server stops at once. *)
Definition sample_host (maxOpenConns : string) : Host :=
  {| godotenv_Load := None;
     flag_Parse := Some (sample_config maxOpenConns);
     fatal_exits := true;
     Sprintf := fun format => format;
     serve := fun _ => Some (ErrOther "listen tcp :4000: bind: address already in use") |}.

(** ** The later [main], with the mailer *)

(** The revision of [main.go] that sends mail.  Its [config] has the
    fields of the earlier one ([shared], which is all [openDB] reads) and
    those for SMTP and CORS; [data.Models] has the permissions as well. *)
Module Later.

Definition earlier_config : Type := config.

Record config : Type := {
  shared : earlier_config;
  smtp_host : string;
  smtp_port : string;
  smtp_username : string;
  smtp_password : string;
  smtp_sender : string;
  cors_trustedOrigins : list string
}.

Record PermissionModel : Type := { PermissionModel_DB : Pool }.

Record Models : Type := {
  Movies : MovieModel;
  Permissions : PermissionModel;
  Tokens : TokenModel;
  Users : UserModel
}.

Definition NewModels (db : Pool) : Models :=
  {| Movies := {| MovieModel_DB := db |};
     Permissions := {| PermissionModel_DB := db |};
     Tokens := {| TokenModel_DB := db |};
     Users := {| UserModel_DB := db |} |}.

(** What [mailer.New(host, port, username, password, sender)] is given. *)
Record Mailer : Type := {
  mailer_host : string;
  mailer_port : Z;
  mailer_username : string;
  mailer_password : string;
  mailer_sender : string
}.

Record application : Type := {
  app_config : config;
  app_models : Models;
  app_mailer : Mailer
}.

Inductive Event : Type :=
| PrintFatal (err : error)
| PrintInfo (message : string) (properties : gmap string string)
| Serve (app : application)                                 (* app.serve() *)
| PoolClose (p : Pool).

(** [app_serve] is the error [app.serve()] returns, [None] for nil. *)
Record Host : Type := {
  godotenv_Load : option error;
  flag_Parse : option config;
  fatal_exits : bool;
  app_serve : application -> option error
}.

Definition fatal (h : Host) (err : error) : Proc Event unit :=
  ([PrintFatal err], if fatal_exits h then inl process_exits else inr tt).

Definition main (h : Host) (sys : Platform) (g : Globals) : list Event * Ending :=
  let run : Proc Event unit :=
    _ <~~ match godotenv_Load h with
          | Some err => fatal h err
          | None => pure tt
          end ;;
    cfg <~~ match flag_Parse h with
            | Some cfg => pure cfg
            | None => stop process_exits
            end ;;
    let '((db, err), _) := openDB sys (shared cfg) g in
    _ <~~ match err with
          | Some err => fatal h err
          | None => pure tt
          end ;;
    match db with
    | None => stop (process_panics nil_dereference)
    | Some db =>
        deferred (PoolClose (pool db))
          (_ <~~ emit (PrintInfo "database connection pool established" ∅) ;;
           match Atoi sys (smtp_port cfg) with
           | inr _ => pure tt
           | inl port =>
               let app := {| app_config := cfg;
                             app_models := NewModels (pool db);
                             app_mailer := {| mailer_host := smtp_host cfg;
                                              mailer_port := port;
                                              mailer_username := smtp_username cfg;
                                              mailer_password := smtp_password cfg;
                                              mailer_sender := smtp_sender cfg |} |} in
               _ <~~ emit (Serve app) ;;
               match app_serve h app with
               | Some err => fatal h err
               | None => pure tt
               end
           end)
    end in
  match run with
  | (events, inl ending) => (events, ending)
  | (events, inr _) => (events, main_returns)
  end.

Definition sample_host (smtp_port : string) : Host :=
  {| godotenv_Load := None;
     flag_Parse := Some {| shared := sample_config "25"; smtp_host := "smtp.example.com";
                           smtp_port := smtp_port; smtp_username := "greenlight";
                           smtp_password := "s3cret"; smtp_sender := "no-reply@example.com";
                           cors_trustedOrigins := [] |};
     fatal_exits := true;
     app_serve := fun _ => None |}.

End Later.


(** * Properties *)

(** ** Facts about the connection *)

Lemma QueryRow_served {A} (c : Conn) (q : Query A) (w : World) :
  served c ->
  QueryRow c call_ctx3 q w =
    Some ((run q (db w)).1,
          {| db := (run q (db w)).2;
             issued := issued w ++ [{| call_ctx := call_ctx3; call_stmt := sql q |}];
             waited := waited w + default 0 (latency c) |}).
Proof.
  intros [Hr Ht]. unfold QueryRow, store_after. rewrite Hr, Ht. reflexivity.
Qed.

(** With a deadline the call always returns, and one more call is on the log. *)
Lemma QueryRow_returns {A} (c : Conn) (q : Query A) (w : World) :
  exists r w',
    QueryRow c call_ctx3 q w = Some (r, w') /\
    issued w' = issued w ++ [{| call_ctx := call_ctx3; call_stmt := sql q |}] /\
    waited w' <= waited w + 3 * Second /\
    (db w' = db w \/ db w' = (run q (db w)).2).
Proof.
  unfold QueryRow, store_after, in_time. simpl Deadline.
  destruct (latency c) as [t|] eqn:Hl; simpl.
  - destruct (bool_decide (t < 3 * Second)) eqn:Ht.
    + apply bool_decide_eq_true in Ht.
      eexists _, _. split; [reflexivity|]. simpl.
      repeat split; [lia|]. destruct (refusal c); auto.
    + eexists _, _. split; [reflexivity|]. simpl.
      repeat split; [lia|]. destruct (refusal c); [auto|]. destruct (lands c); auto.
  - eexists _, _. split; [reflexivity|]. simpl.
    repeat split; [lia|]. destruct (refusal c); [auto|]. destruct (lands c); auto.
Qed.

(** ** Facts about the statements *)

Lemma exec_update_no_match name email hash activated id version s :
  no_matching_row s id version ->
  exec_update name email hash activated id version s = (inl ErrNoRows, s).
Proof.
  unfold no_matching_row, exec_update. intros H.
  destruct (users s !! id) as [r|]; [|reflexivity].
  destruct (decide (row_version r = version)); [contradiction|reflexivity].
Qed.

Lemma email_taken_spec m except email :
  email_taken m except email = true <->
  exists i r, m !! i = Some r /\ Some i <> except /\ row_email r = email.
Proof.
  unfold email_taken. rewrite bool_decide_eq_true. unfold map_Exists. reflexivity.
Qed.


(** ** [UserModel.Update] and the version check *)

(** C1 does not hold as stated: the error of a stale update is
    [ErrEditConflict] only when the statement reaches the store and the
    answer comes back.  Alice's row is at version 3; an update at version 2
    sent to a store that never answers returns the deadline error, and one
    whose password cannot be hashed returns the hasher's error. *)
Lemma stale_update_without_answer :
  no_matching_row (db world0) (ID (alice 2)) (Version (alice 2)) /\
  (exists w', Update env_stalled (alice 2) world0
              = Some (Some DeadlineExceeded, alice 2, w')) /\
  Update {| CreateHash := failing_hasher; conn := healthy |} (alice 2) world0
    = Some (Some no_entropy, alice 2, world0) /\
  DeadlineExceeded <> ErrEditConflict /\ no_entropy <> ErrEditConflict.
Proof.
  split; [vm_compute; discriminate|].
  split; [eexists; vm_compute; reflexivity|].
  split; [reflexivity|]. split; discriminate.
Qed.

(** C1, amended. Every [Update] sends at most one statement, the
    conditional [UPDATE ... WHERE id = $5 AND version = $6], and none when
    the password cannot be hashed: the version is never read before the
    write.  An update whose (id, version) pair matches no stored row never
    succeeds and never changes the store, whatever the hasher and the
    connection do, and the struct is handed back as it was; its error is
    [ErrEditConflict] whenever the hasher and the store answer, and the
    hasher's error when hashing fails. *)
Theorem Update_stale_version_rejected (env : Env) (user : User) (w : World) :
  (forall res w',
     Update env user w = Some (res, w') ->
     match CreateHash env (Password user) with
     | inl hashedPassword => issued w' = issued w ++ [update_call user hashedPassword]
     | inr _ => issued w' = issued w
     end) /\
  (no_matching_row (db w) (ID user) (Version user) ->
   exists err w',
     Update env user w = Some (Some err, user, w') /\
     db w' = db w /\
     match CreateHash env (Password user) with
     | inl _ => served (conn env) -> err = ErrEditConflict
     | inr e => err = e
     end).
Proof.
  split.
  - intros res w'. unfold Update.
    destruct (CreateHash env (Password user)) as [hashed|e].
    + set (q := update_user _ _ _ _ _ _). cbv zeta. fold call_ctx3. unfold bind.
      destruct (QueryRow_returns (conn env) q w) as (r & w1 & Hq & Hlog & _ & _).
      rewrite Hq. intros H. assert (w' = w1) as ->; [|exact Hlog].
      destruct r as [err|version];
        [destruct (String.eqb _ _); [|destruct (errors_Is _ _)]|];
        injection H as _ <-; reflexivity.
    + unfold ret. intros H. injection H as _ <-. reflexivity.
  - intros Hstale. unfold Update.
    destruct (CreateHash env (Password user)) as [hashed|e] eqn:Hhash.
    + set (q := update_user _ _ _ _ _ _).
      assert (Hrun : run q (db w) = (inl ErrNoRows, db w))
        by (apply exec_update_no_match; exact Hstale).
      destruct (QueryRow_returns (conn env) q w) as (r & w1 & Hq & _ & _ & Hdb).
      assert (Hdb1 : db w1 = db w)
        by (destruct Hdb as [->| ->]; [|rewrite Hrun]; reflexivity).
      unfold bind. cbv zeta. fold call_ctx3. rewrite Hq.
      assert (Hserved : served (conn env) -> r = inl ErrNoRows).
      { intros Hs. rewrite (QueryRow_served _ q w Hs), Hrun in Hq. simpl in Hq. congruence. }
      destruct r as [err|v].
      * destruct (String.eqb (Error err) duplicate_email_text) eqn:Hdup;
          [|destruct (errors_Is err ErrNoRows) eqn:Hno];
          (eexists _, w1; split; [reflexivity|]; split; [exact Hdb1|]);
          intros Hs; specialize (Hserved Hs); injection Hserved as ->;
          [discriminate Hdup | reflexivity | discriminate Hno].
      * (* a row came back: only when the statement ran, and then it found none *)
        exfalso. clear Hserved.
        unfold QueryRow in Hq. simpl Deadline in Hq.
        destruct (in_time _ _); [|discriminate Hq].
        destruct (refusal (conn env)); [injection Hq as Hq _; discriminate Hq|].
        rewrite Hrun in Hq. injection Hq as Hq _. discriminate Hq.
    + exists e, w. repeat split; reflexivity.
Qed.

Lemma Update_stale_version_rejected_witness :
  no_matching_row (db world0) (ID (alice 2)) (Version (alice 2)) /\
  exists err w',
    Update env0 (alice 2) world0 = Some (Some err, alice 2, w') /\
    db w' = db world0 /\
    match CreateHash env0 (Password (alice 2)) with
    | inl _ => served (conn env0) -> err = ErrEditConflict
    | inr e => err = e
    end.
Proof.
  split; [vm_compute; discriminate|].
  apply (proj2 (Update_stale_version_rejected env0 (alice 2) world0)).
  vm_compute; discriminate.
Defined.

(** On the sample store: Alice's row is at version 3, an update at
    version 2 is turned down and the row stays as it is. *)
Example Update_alice_at_stale_version :
  option_map (fun x => (x.1.1, users (db x.2) !! 1, issued x.2))
    (Update env0 (alice 2) world0)
  = Some (Some ErrEditConflict, Some alice_row,
          [update_call (alice 2) "$argon2id$correct horse"]).
Proof. vm_compute. reflexivity. Qed.

(** A row came back from the call: the statement was served and the store
    holds what the statement left. *)
Lemma QueryRow_row {A} (c : Conn) (q : Query A) (w w' : World) (a : A) :
  QueryRow c call_ctx3 q w = Some (inr a, w') ->
  served c /\ run q (db w) = (inr a, db w') /\
  issued w' = issued w ++ [{| call_ctx := call_ctx3; call_stmt := sql q |}].
Proof.
  unfold QueryRow, store_after, served. simpl Deadline.
  destruct (in_time call_ctx3 c) eqn:Ht; [|discriminate].
  destruct (refusal c) as [e|]; [discriminate|].
  simpl. intros H. injection H as H1 H2. subst w'. simpl.
  repeat split. destruct (run q (db w)) as [r s']. simpl in *. congruence.
Qed.

Lemma exec_update_row name email hash activated id version s v s' :
  exec_update name email hash activated id version s = (inr v, s') ->
  exists r,
    users s !! id = Some r /\ row_version r = version /\
    email_taken (users s) (Some id) email = false /\
    v = row_version r + 1 /\
    s' = {| users := <[id := {| row_created_at := row_created_at r;
                                row_name := name; row_email := email;
                                row_password_hash := hash;
                                row_activated := activated;
                                row_version := row_version r + 1 |}]> (users s);
            users_id_seq := users_id_seq s; clock := clock s |}.
Proof.
  unfold exec_update. destruct (users s !! id) as [r|]; [|discriminate].
  destruct (decide (row_version r = version)); [|discriminate].
  destruct (email_taken (users s) (Some id) email) eqn:He; [discriminate|].
  simpl. intros H. injection H as <- <-. exists r. repeat split; assumption.
Qed.

(** C3. When [Update] returns nil, the store held a row with the user's id
    at the submitted version; that row now carries the submitted fields and
    the version plus one, every other row and the rest of the user struct
    are as before, and the struct's [Version] is the new stored version. *)
Theorem Update_success_increments_version (env : Env) (user user' : User) (w w' : World) :
  Update env user w = Some (None, user', w') ->
  exists r r',
    users (db w) !! ID user = Some r /\ row_version r = Version user /\
    users (db w') !! ID user = Some r' /\
    row_version r' = row_version r + 1 /\
    Version user' = row_version r' /\
    (row_name r', row_email r', row_activated r') = (Name user, Email user, Activated user) /\
    (ID user', CreatedAt user', Name user', Email user', Password user', Activated user')
      = (ID user, CreatedAt user, Name user, Email user, Password user, Activated user) /\
    forall j, j <> ID user -> users (db w') !! j = users (db w) !! j.
Proof.
  unfold Update.
  destruct (CreateHash env (Password user)) as [hashed|e]; [|discriminate].
  cbv zeta. fold call_ctx3. unfold bind.
  destruct (QueryRow _ _ _ w) as [[[err|v] w1]|] eqn:Hq; [| |discriminate].
  { destruct (String.eqb _ _); [discriminate|].
    destruct (errors_Is _ _); discriminate. }
  unfold ret. intros H. injection H as <- <-.
  apply QueryRow_row in Hq as (_ & Hrun & _).
  apply exec_update_row in Hrun as (r & Hr & Hv & _ & -> & Hs).
  rewrite Hs. simpl.
  eexists r, _. split; [exact Hr|]. split; [exact Hv|].
  split; [apply lookup_insert_eq|]. simpl.
  repeat split. intros j Hj. apply lookup_insert_ne. congruence.
Qed.

Lemma Update_success_increments_version_witness :
  exists user' w',
    Update env0 (alice 3) world0 = Some (None, user', w') /\
    exists r r',
      users (db world0) !! ID (alice 3) = Some r /\ row_version r = Version (alice 3) /\
      users (db w') !! ID (alice 3) = Some r' /\
      row_version r' = row_version r + 1 /\
      Version user' = row_version r' /\
      (row_name r', row_email r', row_activated r')
        = (Name (alice 3), Email (alice 3), Activated (alice 3)) /\
      (ID user', CreatedAt user', Name user', Email user', Password user', Activated user')
        = (ID (alice 3), CreatedAt (alice 3), Name (alice 3), Email (alice 3),
           Password (alice 3), Activated (alice 3)) /\
      forall j, j <> ID (alice 3) -> users (db w') !! j = users (db world0) !! j.
Proof.
  eexists _, _. split; [vm_compute; reflexivity|].
  eapply (Update_success_increments_version env0 (alice 3)).
  vm_compute; reflexivity.
Defined.

(** ** The unique-email constraint *)

Lemma seq_ahead_fresh s : seq_ahead s -> users s !! users_id_seq s = None.
Proof.
  intros Hs. destruct (users s !! users_id_seq s) as [r|] eqn:Hr; [|reflexivity].
  apply Hs in Hr. lia.
Qed.


Lemma exec_update_duplicate name email hash activated id version s r :
  users s !! id = Some r -> row_version r = version ->
  email_in_use s (Some id) email ->
  exec_update name email hash activated id version s =
    (inl (unique_violation "users_email_key"), s).
Proof.
  intros Hr Hv Hdup. unfold exec_update. rewrite Hr.
  destruct (decide (row_version r = version)); [|contradiction].
  apply email_taken_spec in Hdup. rewrite Hdup. reflexivity.
Qed.

(** The sequence stays ahead of the stored ids under the statements that
    write. *)
Lemma seq_ahead_insert n e h a s :
  seq_ahead s -> seq_ahead (exec_insert n e h a s).2.
Proof.
  intros Hs. unfold exec_insert. rewrite (seq_ahead_fresh s Hs).
  destruct (email_taken _ _ _); unfold seq_ahead in *; simpl.
  - intros j r Hj. apply Hs in Hj. lia.
  - apply map_Forall_insert_2; [lia|]. intros j r Hj. apply Hs in Hj. lia.
Qed.

Lemma seq_ahead_update n e h a i v s :
  seq_ahead s -> seq_ahead (exec_update n e h a i v s).2.
Proof.
  intros Hs. unfold exec_update. destruct (users s !! i) as [r|] eqn:Hr; [|exact Hs].
  destruct (decide _); [|exact Hs]. destruct (email_taken _ _ _); [exact Hs|].
  unfold seq_ahead in *; simpl. apply map_Forall_insert_2; [|exact Hs].
  apply Hs in Hr. exact Hr.
Qed.







(** ** [UserModel.GetByEmail] *)

Lemma find_by_email_Some m email i r :
  find_by_email m email = Some (i, r) -> m !! i = Some r /\ row_email r = email.
Proof.
  unfold find_by_email. intros H. apply head_Some_elem_of in H.
  apply list_elem_of_filter in H as [He Hin].
  apply elem_of_map_to_list in Hin. split; assumption.
Qed.

Lemma find_by_email_None m email :
  find_by_email m email = None <-> forall i r, m !! i = Some r -> row_email r <> email.
Proof.
  unfold find_by_email. rewrite head_None. split.
  - intros H i r Hir He.
    apply (filter_nil_not_elem_of _ _ (i, r) H); [exact He|].
    apply elem_of_map_to_list. exact Hir.
  - intros H. destruct (filter _ _) as [|[i r] l] eqn:Hf; [reflexivity|].
    assert (Hin : (i, r) ∈ filter (fun ir : Z * Row => row_email ir.2 = email) (map_to_list m))
      by (rewrite Hf; left).
    apply list_elem_of_filter in Hin as [He Hin].
    apply elem_of_map_to_list in Hin. destruct (H i r Hin He).
Qed.

(** C5 does not hold as stated: with a row that holds the email,
    [GetByEmail] returns the user only when the statement reaches the store
    and the answer comes back.  Bob is stored; on a store that never
    answers the lookup of his email returns no user and the deadline
    error, which is neither nil nor [ErrRecordNotFound]. *)
Lemma stored_user_not_returned :
  users (db world0) !! 2 = Some bob_row /\ row_email bob_row = "bob@example.com" /\
  (exists w', GetByEmail env_stalled "bob@example.com" world0
              = Some (None, Some DeadlineExceeded, w')) /\
  DeadlineExceeded <> ErrRecordNotFound.
Proof.
  split; [reflexivity|]. split; [reflexivity|].
  split; [eexists; vm_compute; reflexivity|discriminate].
Qed.

(** C5, amended. [GetByEmail] always returns and leaves the store as it
    is.  When the store answers the call, it returns [ErrRecordNotFound],
    and then no row holds the email, or a nil error with the user built
    from a stored row that holds it (id, created_at, name, email, password
    hash, activated, version).  When the store does not answer the call, it
    returns no user and the error of the call: the deadline error when the
    reply is late or missing, and the error the store raised otherwise
    (unless that is [pgx.ErrNoRows] itself), never a user. *)
Theorem GetByEmail_found_or_not_found (env : Env) (email : string) (w : World) :
  exists res w',
    GetByEmail env email w = Some (res, w') /\ db w' = db w /\
    (served (conn env) ->
     (res = (None, Some ErrRecordNotFound) /\
      forall i r, users (db w) !! i = Some r -> row_email r <> email)
     \/
     (exists i r,
        users (db w) !! i = Some r /\ row_email r = email /\
        res = (Some (user_of_row i r), None))) /\
    (~ served (conn env) ->
     exists e,
       res = (None, Some e) /\
       (in_time call_ctx3 (conn env) = false -> e = DeadlineExceeded) /\
       (forall e0, in_time call_ctx3 (conn env) = true ->
                   refusal (conn env) = Some e0 -> e0 <> ErrNoRows -> e = e0)).
Proof.
  unfold GetByEmail. cbv zeta. fold call_ctx3. unfold bind.
  unfold QueryRow, store_after, served. simpl Deadline.
  assert (Hsame : (run (select_user_by_email email) (db w)).2 = db w).
  { unfold select_user_by_email; cbn [run]. unfold exec_select_by_email.
    destruct (find_by_email _ _); reflexivity. }
  destruct (in_time call_ctx3 (conn env)) eqn:Ht; cbn [orb].
  - destruct (refusal (conn env)) as [e0|] eqn:Hr.
    + unfold errors_Is. destruct (bool_decide (e0 = ErrNoRows)) eqn:Hno;
        (eexists _, _; split; [reflexivity|]; split; [reflexivity|]; split;
         [intros [H _]; discriminate H|]);
        intros _; eexists; (split; [reflexivity|]); (split; [discriminate|]).
      * apply bool_decide_eq_true in Hno. intros e1 _ He1 Hne. congruence.
      * intros e1 _ He1 _. congruence.
    + unfold select_user_by_email; cbn [run sql]. unfold exec_select_by_email.
      destruct (find_by_email (users (db w)) email) as [[i r]|] eqn:Hfind; cbn [fst snd].
      * apply find_by_email_Some in Hfind as [Hir He].
        eexists _, _. split; [reflexivity|]. split; [reflexivity|]. split.
        -- intros _. right. exists i, r. repeat split; assumption.
        -- intros H. destruct H. split; reflexivity.
      * eexists _, _. split; [reflexivity|]. split; [reflexivity|]. split.
        -- intros _. left. split; [reflexivity|]. apply find_by_email_None. exact Hfind.
        -- intros H. destruct H. split; reflexivity.
  - eexists _, _. split; [reflexivity|]. cbn [db]. split.
    + destruct (refusal (conn env)); [reflexivity|]. destruct (lands (conn env)); auto.
    + split; [intros [_ H]; discriminate H|].
      intros _. eexists. split; [reflexivity|]. split; [reflexivity|].
      intros e0 H. discriminate H.
Qed.

Lemma GetByEmail_found_or_not_found_witness :
  served (conn env0) /\
  exists i r w',
    users (db world0) !! i = Some r /\ row_email r = "bob@example.com" /\
    GetByEmail env0 "bob@example.com" world0 = Some (Some (user_of_row i r), None, w').
Proof.
  assert (Hserved : served (conn env0)) by (split; reflexivity).
  split; [exact Hserved|].
  destruct (GetByEmail_found_or_not_found env0 "bob@example.com" world0)
    as (res & w' & Hget & _ & Hfound & _).
  destruct (Hfound Hserved) as [[_ Hnone]|(i & r & Hir & He & ->)].
  - destruct (Hnone 2 bob_row eq_refl eq_refl).
  - exists i, r, w'. repeat split; assumption.
Defined.

(** The two outcomes on the sample store. *)
Example GetByEmail_bob :
  option_map fst (GetByEmail env0 "bob@example.com" world0)
  = Some (Some (user_of_row 2 bob_row), None).
Proof. vm_compute. reflexivity. Qed.

Example GetByEmail_nobody :
  option_map fst (GetByEmail env0 "carol@example.com" world0)
  = Some (None, Some ErrRecordNotFound).
Proof. vm_compute. reflexivity. Qed.

(** ** Deadlines *)

Lemma within_deadline_refl w : within_deadline w w.
Proof.
  split; [unfold Second; lia|]. exists []. split; [symmetry; apply app_nil_r|constructor].
Qed.

Lemma QueryRow_within_deadline {A} (c : Conn) (q : Query A) (w : World) :
  exists r w', QueryRow c call_ctx3 q w = Some (r, w') /\ within_deadline w w'.
Proof.
  destruct (QueryRow_returns c q w) as (r & w' & Hq & Hlog & Hwait & _).
  exists r, w'. split; [exact Hq|]. split; [exact Hwait|].
  eexists. split; [exact Hlog|]. repeat constructor.
Qed.

(** C6. [Insert], [GetByEmail] and [Update] return whatever the connection
    does, a stalled store included; each call they issue carries a
    deadline of three seconds, and the caller is blocked on the store for
    no longer than that. *)
Theorem store_calls_are_bounded (env : Env) (user : User) (email : string) (w : World) :
  (exists res w', Insert env user w = Some (res, w') /\ within_deadline w w') /\
  (exists res w', GetByEmail env email w = Some (res, w') /\ within_deadline w w') /\
  (exists res w', Update env user w = Some (res, w') /\ within_deadline w w').
Proof.
  split; [|split].
  - unfold Insert. destruct (CreateHash env (Password user)) as [hashed|e].
    + cbv zeta. fold call_ctx3. unfold bind.
      destruct (QueryRow_within_deadline (conn env)
                  (insert_user (Name user) (Email user) hashed (Activated user)) w)
        as (r & w' & -> & Hw).
      destruct r as [err|[[id created_at] version]];
        [destruct (String.eqb _ _)|]; eexists _, w'; split; try reflexivity; exact Hw.
    + eexists _, w. split; [reflexivity|apply within_deadline_refl].
  - unfold GetByEmail. cbv zeta. fold call_ctx3. unfold bind.
    destruct (QueryRow_within_deadline (conn env) (select_user_by_email email) w)
      as (r & w' & -> & Hw).
    destruct r as [err|[id row]];
      [destruct (errors_Is _ _)|]; eexists _, w'; split; try reflexivity; exact Hw.
  - unfold Update. destruct (CreateHash env (Password user)) as [hashed|e].
    + cbv zeta. fold call_ctx3. unfold bind.
      destruct (QueryRow_within_deadline (conn env)
                  (update_user (Name user) (Email user) hashed (Activated user)
                     (ID user) (Version user)) w)
        as (r & w' & -> & Hw).
      destruct r as [err|version];
        [destruct (String.eqb _ _); [|destruct (errors_Is _ _)]|];
        eexists _, w'; split; try reflexivity; exact Hw.
    + eexists _, w. split; [reflexivity|apply within_deadline_refl].
Qed.

(** The deadline is what bounds the wait: on a context without one, a call
    to a store that never answers does not return, while [GetByEmail]
    gives up after its three seconds. *)
Example QueryRow_without_deadline_blocks :
  QueryRow stalled Background (select_user_by_email "bob@example.com") world0 = None.
Proof. reflexivity. Qed.

Example GetByEmail_stalled_store :
  option_map (fun x => (x.1, waited x.2))
    (GetByEmail env_stalled "bob@example.com" world0)
  = Some ((None, Some DeadlineExceeded), 3 * Second).
Proof. vm_compute. reflexivity. Qed.

(** ** Which errors reach the caller *)

(** C2 does not hold as stated: an error that the persistence call
    produces and that is neither the unique violation on the email nor
    [pgx.ErrNoRows] falls through the [default] branch and is returned as
    it is.  Here the store rejects a zero byte in the name ([Insert]), the
    store never answers ([GetByEmail], [Update]), and the hasher fails
    ([Insert]); none of the values returned is one that package [data]
    declares. *)
Lemma raw_error_reaches_caller :
  (exists w',
     QueryRow rejecting call_ctx3
       (insert_user (Name nul_user) (Email nul_user) "$argon2id$pa55word!"
          (Activated nul_user)) world0
       = Some (inl invalid_byte_sequence, w') /\
     Insert env_rejecting nul_user world0
       = Some (Some invalid_byte_sequence, nul_user, w')) /\
  (exists w',
     GetByEmail env_stalled "bob@example.com" world0
       = Some (None, Some DeadlineExceeded, w')) /\
  (exists w',
     Update env_stalled (alice 3) world0
       = Some (Some DeadlineExceeded, alice 3, w')) /\
  Insert {| CreateHash := failing_hasher; conn := healthy |} nul_user world0
    = Some (Some no_entropy, nul_user, world0) /\
  from_persistence invalid_byte_sequence /\ ~ named invalid_byte_sequence /\
  from_persistence DeadlineExceeded /\ ~ named DeadlineExceeded /\
  ~ named no_entropy.
Proof.
  split; [eexists; split; vm_compute; reflexivity|].
  split; [eexists; vm_compute; reflexivity|].
  split; [eexists; vm_compute; reflexivity|].
  split; [vm_compute; reflexivity|].
  unfold named, invalid_byte_sequence, no_entropy.
  repeat split; try exact I; intros [H|[H|H]]; discriminate H.
Qed.

(** C2, amended. An error returned by [Insert], [GetByEmail] or [Update]
    is one of the three values of package [data], standing for the unique
    violation on the email ([ErrDuplicateEmail]) or for [pgx.ErrNoRows]
    ([ErrRecordNotFound] from [GetByEmail], [ErrEditConflict] from
    [Update]); or else it is the very error the password hasher or the
    persistence call produced, handed to the caller unchanged. *)
Theorem returned_error_named_or_passed_on (env : Env) (w w' : World) (e : error) :
  (forall user user',
     Insert env user w = Some (Some e, user', w') ->
     e = ErrDuplicateEmail \/
     CreateHash env (Password user) = inr e \/
     exists hashedPassword,
       CreateHash env (Password user) = inl hashedPassword /\
       QueryRow (conn env) call_ctx3
         (insert_user (Name user) (Email user) hashedPassword (Activated user)) w
         = Some (inl e, w') /\
       String.eqb (Error e) duplicate_email_text = false) /\
  (forall email res,
     GetByEmail env email w = Some (res, Some e, w') ->
     e = ErrRecordNotFound \/
     (QueryRow (conn env) call_ctx3 (select_user_by_email email) w = Some (inl e, w') /\
      e <> ErrNoRows)) /\
  (forall user user',
     Update env user w = Some (Some e, user', w') ->
     e = ErrDuplicateEmail \/ e = ErrEditConflict \/
     CreateHash env (Password user) = inr e \/
     exists hashedPassword,
       CreateHash env (Password user) = inl hashedPassword /\
       QueryRow (conn env) call_ctx3
         (update_user (Name user) (Email user) hashedPassword (Activated user)
            (ID user) (Version user)) w
         = Some (inl e, w') /\
       String.eqb (Error e) duplicate_email_text = false /\ e <> ErrNoRows).
Proof.
  split; [|split].
  - intros user user'. unfold Insert.
    destruct (CreateHash env (Password user)) as [hashed|e0].
    + cbv zeta. fold call_ctx3. unfold bind.
      destruct (QueryRow _ _ _ w) as [[[err|[[id created_at] version]] w1]|] eqn:Hq;
        [| discriminate | discriminate].
      destruct (String.eqb (Error err) duplicate_email_text) eqn:Hdup;
        unfold ret; intros H; injection H as <- _ <-.
      * left. reflexivity.
      * right. right. exists hashed. repeat split; [exact Hq | exact Hdup].
    + unfold ret. intros H. injection H as <- _ _. right. left. reflexivity.
  - intros email res. unfold GetByEmail. cbv zeta. fold call_ctx3. unfold bind.
    destruct (QueryRow _ _ _ w) as [[[err|[id row]] w1]|] eqn:Hq;
      [| discriminate | discriminate].
    unfold errors_Is. destruct (bool_decide (err = ErrNoRows)) eqn:Hno;
      unfold ret; intros H; injection H as _ <- <-.
    + left. reflexivity.
    + right. split; [reflexivity|]. apply bool_decide_eq_false in Hno. exact Hno.
  - intros user user'. unfold Update.
    destruct (CreateHash env (Password user)) as [hashed|e0].
    + cbv zeta. fold call_ctx3. unfold bind.
      destruct (QueryRow _ _ _ w) as [[[err|version] w1]|] eqn:Hq;
        [| discriminate | discriminate].
      destruct (String.eqb (Error err) duplicate_email_text) eqn:Hdup.
      * unfold ret; intros H; injection H as <- _ <-. left. reflexivity.
      * unfold errors_Is. destruct (bool_decide (err = ErrNoRows)) eqn:Hno;
          unfold ret; intros H; injection H as <- _ <-.
        -- right. left. reflexivity.
        -- right. right. right. exists hashed. repeat split; [exact Hq|exact Hdup|].
           apply bool_decide_eq_false in Hno. exact Hno.
    + unfold ret. intros H. injection H as <- _ _. right. right. left. reflexivity.
Qed.

Lemma returned_error_named_or_passed_on_witness :
  exists w',
    Insert env_rejecting nul_user world0
      = Some (Some invalid_byte_sequence, nul_user, w') /\
    (invalid_byte_sequence = ErrDuplicateEmail \/
     CreateHash env_rejecting (Password nul_user) = inr invalid_byte_sequence \/
     exists hashedPassword,
       CreateHash env_rejecting (Password nul_user) = inl hashedPassword /\
       QueryRow (conn env_rejecting) call_ctx3
         (insert_user (Name nul_user) (Email nul_user) hashedPassword
            (Activated nul_user)) world0
         = Some (inl invalid_byte_sequence, w') /\
       String.eqb (Error invalid_byte_sequence) duplicate_email_text = false).
Proof.
  eexists. split; [vm_compute; reflexivity|].
  apply (proj1 (returned_error_named_or_passed_on env_rejecting world0 _
                  invalid_byte_sequence) nul_user nul_user).
  vm_compute; reflexivity.
Defined.

(** ** The JSON form of a user *)

(** C7. The JSON object of a user has the members [id], [created_at],
    [name], [email] and [activated] and no other; users that differ only
    in [Password] and [Version] have the same JSON. *)
Theorem Marshal_omits_password_and_version (RFC3339 : Time -> string) (u1 u2 : User) :
  keys (Marshal RFC3339 u1) = ["id"; "created_at"; "name"; "email"; "activated"]%string /\
  (same_outward u1 u2 -> Marshal RFC3339 u1 = Marshal RFC3339 u2).
Proof.
  split; [reflexivity|].
  intros (Hid & Hcreated & Hname & Hemail & Hactivated).
  unfold Marshal, User_fields, Marshal_member. cbn.
  rewrite Hid, Hcreated, Hname, Hemail, Hactivated. reflexivity.
Qed.

Lemma Marshal_omits_password_and_version_witness :
  same_outward (alice 3) (user_of_row 1 {| row_created_at := 100; row_name := "Alice A.";
                                           row_email := "alice@example.com";
                                           row_password_hash := "$argon2id$other";
                                           row_activated := true; row_version := 9 |}) /\
  Marshal sample_RFC3339 (alice 3)
  = Marshal sample_RFC3339
      (user_of_row 1 {| row_created_at := 100; row_name := "Alice A.";
                        row_email := "alice@example.com";
                        row_password_hash := "$argon2id$other";
                        row_activated := true; row_version := 9 |}).
Proof.
  assert (H : same_outward (alice 3)
                (user_of_row 1 {| row_created_at := 100; row_name := "Alice A.";
                                  row_email := "alice@example.com";
                                  row_password_hash := "$argon2id$other";
                                  row_activated := true; row_version := 9 |}))
    by (repeat split; reflexivity).
  split; [exact H|].
  apply (proj2 (Marshal_omits_password_and_version _ (alice 3) _) H).
Defined.

(** ** Opening the pool *)

(** C8. [openDB] returns a nil error whatever happens.  On the first call
    the caller gets a nil [*postgres] next to that nil error when a step
    of the once-block fails, and the new pool when none does: the result
    is nil exactly when the start-up failed. *)
Theorem openDB_error_is_nil (sys : Platform) (cfg : config) (g : Globals) :
  (openDB sys cfg g).1.2 = None /\
  (startup_fails sys cfg -> (openDB sys cfg initial_globals).1 = (None, None)) /\
  ((openDB sys cfg initial_globals).1.1 = None -> startup_fails sys cfg).
Proof.
  split; [|split].
  - unfold openDB. destruct (pgOnce g); [reflexivity|].
    destruct (once_body sys cfg None (pgInstance g)). reflexivity.
  - unfold startup_fails, openDB, once_body. simpl.
    destruct (pgxpool_New sys (db_dsn cfg)) as [db|e]; [|reflexivity].
    intros [[e He]|[[e He]|[e He]]].
    + rewrite He. reflexivity.
    + rewrite He. destruct (Atoi sys _); reflexivity.
    + rewrite He. destruct (Atoi sys _); [|reflexivity].
      destruct (ParseDuration sys _); reflexivity.
  - unfold startup_fails, openDB, once_body. simpl.
    destruct (pgxpool_New sys (db_dsn cfg)) as [db|e]; [|exact (fun _ => I)].
    destruct (Atoi sys _) as [i|e]; [|intros _; left; eauto].
    destruct (ParseDuration sys _) as [d|e]; [|intros _; right; left; eauto].
    destruct (Ping sys db) as [e|]; [intros _; right; right; eauto|discriminate].
Qed.

Lemma openDB_error_is_nil_witness :
  startup_fails sample_platform (sample_config "many") /\
  (openDB sample_platform (sample_config "many") initial_globals).1 = (None, None).
Proof.
  assert (H : startup_fails sample_platform (sample_config "many"))
    by (left; eexists; vm_compute; reflexivity).
  split; [exact H|].
  apply (proj1 (proj2 (openDB_error_is_nil sample_platform (sample_config "many")
                         initial_globals)) H).
Defined.

(** When every step works the first call publishes the pool, and later
    calls hand out the same instance without running the block again. *)
Example openDB_first_call :
  openDB sample_platform (sample_config "25") initial_globals
  = ((Some {| pool := {| pool_dsn := "postgres://greenlight@localhost/greenlight" |} |}, None),
     {| pgInstance := Some {| pool := {| pool_dsn := "postgres://greenlight@localhost/greenlight" |} |};
        pgOnce := true |}).
Proof. reflexivity. Qed.

Lemma openDB_later_calls sys cfg g :
  pgOnce g = true -> openDB sys cfg g = ((pgInstance g, None), g).
Proof. intros H. unfold openDB. rewrite H. reflexivity. Qed.

(** ** The user in the request context *)

Lemma Value_unbound ctx : binds_user ctx = false -> Value ctx userContextKey = nil_interface.
Proof.
  induction ctx as [|parent IH k v|parent IH d]; simpl; intros H.
  - reflexivity.
  - apply orb_false_iff in H as [Hk Hp]. apply bool_decide_eq_false in Hk.
    destruct (decide (k = userContextKey)); [contradiction|]. apply IH. exact Hp.
  - apply IH. exact H.
Qed.

(** C9. [contextGetUser] gives back the pointer [contextSetUser] stored,
    the nil pointer too, and the rest of the request is untouched; on a
    request whose context binds no user it panics. *)
Theorem contextGetUser_contextSetUser (r : Request) (user : UserPtr) :
  contextGetUser (contextSetUser r user) = Returns user /\
  req_rest (contextSetUser r user) = req_rest r /\
  (binds_user (Request_Context r) = false ->
   contextGetUser r = Panics "missing user value in request context").
Proof.
  split; [|split].
  - unfold contextGetUser, contextSetUser, Request_WithContext, Request_Context. simpl.
    destruct (decide (userContextKey = userContextKey)); [reflexivity|contradiction].
  - reflexivity.
  - intros H. unfold contextGetUser. rewrite (Value_unbound _ H). reflexivity.
Qed.

Lemma contextGetUser_contextSetUser_witness :
  binds_user (Request_Context plain_request) = false /\
  contextGetUser plain_request = Panics "missing user value in request context".
Proof.
  split; [reflexivity|].
  apply (contextGetUser_contextSetUser plain_request None). reflexivity.
Defined.

Example contextGetUser_nil_pointer :
  contextGetUser (contextSetUser plain_request None) = Returns None.
Proof. reflexivity. Qed.

(** ** Validation *)

Section ValidateFacts.
Context {api : ValidatorAPI} {laws : ValidatorLaws api}.

Lemma Valid_Check v ok key message :
  Valid (Check v ok key message) = Valid v && ok.
Proof.
  destruct ok.
  - rewrite Check_holds. symmetry. apply andb_true_r.
  - rewrite Check_fails. symmetry. apply andb_false_r.
Qed.

Lemma nonempty_true s : nonempty s = true <-> s <> "".
Proof.
  unfold nonempty. rewrite negb_true_iff. split.
  - intros H ->. discriminate H.
  - intros H. apply String.eqb_neq. exact H.
Qed.

Lemma Valid_ValidateUser v user :
  Valid (ValidateUser v user).1 =
    Valid v && nonempty (Name user) && (String.length (Name user) <=? 500)%nat
    && nonempty (Email user) && Matches (Email user) EmailRX
    && nonempty (Password user) && (8 <=? String.length (Password user))%nat
    && (String.length (Password user) <=? 72)%nat.
Proof.
  unfold ValidateUser, ValidateEmail, ValidatePasswordPlaintext. cbn [fst].
  rewrite !Valid_Check. reflexivity.
Qed.

Lemma length_8_nonempty s : (8 <= String.length s)%nat -> nonempty s = true.
Proof. destruct s; simpl; [lia|reflexivity]. Qed.

(** What [ValidateUser] checks, with lengths in bytes.  From a validator
without errors it ends without errors exactly when the name is non-empty
and at most 500 bytes, the email is non-empty and matches the pattern,
and the password has 8 to 72 bytes.  In that case the validator is as it
was; otherwise it holds an error, whatever it held before.  The user is
not written. *)
Theorem ValidateUser_accepts_exactly (v : Validator) (user : User) :
  (Valid v = true -> (Valid (ValidateUser v user).1 = true <-> acceptable user)) /\
  (acceptable user -> (ValidateUser v user).1 = v) /\
  (~ acceptable user -> Valid (ValidateUser v user).1 = false) /\
  (ValidateUser v user).2 = user.
Proof.
  assert (Hiff : Valid (ValidateUser v user).1 = true <-> Valid v = true /\ acceptable user).
  { rewrite Valid_ValidateUser, !andb_true_iff, !nonempty_true.
    rewrite !Nat.leb_le. unfold acceptable. split.
    - intros (((((((Hv & H1) & H2) & H3) & H4) & _) & H6) & H7). tauto.
    - intros (Hv & H1 & H2 & H3 & H4 & H6 & H7).
      repeat split; try assumption.
      intros Hp. rewrite Hp in H6. simpl in H6. lia. }
  split; [|split; [|split]].
  - intros Hv. rewrite Hiff. tauto.
  - intros (H1 & H2 & H3 & H4 & H6 & H7).
    unfold ValidateUser, ValidateEmail, ValidatePasswordPlaintext. cbn [fst].
    rewrite (proj2 (nonempty_true _) H1), (proj2 (nonempty_true _) H3), H4.
    rewrite (length_8_nonempty _ H6).
    rewrite (proj2 (Nat.leb_le _ _) H2), (proj2 (Nat.leb_le _ _) H6),
      (proj2 (Nat.leb_le _ _) H7).
    rewrite !Check_holds. reflexivity.
  - intros Hno. apply not_true_is_false. intros Hv.
    apply Hiff in Hv. tauto.
  - reflexivity.
Qed.
End ValidateFacts.

Lemma map_Check_fails (v : gmap string string) key message :
  bool_decide (map_Check v false key message = ∅) = false.
Proof.
  apply bool_decide_eq_false. unfold map_Check.
  destruct (v !! key) eqn:Hk.
  - intros ->. rewrite lookup_empty in Hk. discriminate Hk.
  - apply insert_non_empty.
Qed.

#[global] Instance map_validator_laws : ValidatorLaws map_validator.
Proof.
  split.
  - reflexivity.
  - exact map_Check_fails.
Defined.

Lemma ValidateUser_accepts_exactly_witness :
  Valid (∅ : gmap string string) = true /\ acceptable carol /\
  Valid (ValidateUser (∅ : gmap string string) carol).1 = true /\
  (ValidateUser (∅ : gmap string string) carol).1 = ∅ /\
  ~ acceptable (alice_with "hunter2") /\
  Valid (ValidateUser (∅ : gmap string string) (alice_with "hunter2")).1 = false.
Proof.
  assert (Hcarol : acceptable carol)
    by (unfold acceptable; simpl; repeat split; (discriminate || lia || reflexivity)).
  assert (Hnul : ~ acceptable (alice_with "hunter2"))
    by (unfold acceptable; simpl; lia).
  destruct (ValidateUser_accepts_exactly (api := map_validator) ∅ carol)
    as (Hiff & Hsame & _ & _).
  destruct (ValidateUser_accepts_exactly (api := map_validator) ∅ (alice_with "hunter2"))
    as (_ & _ & Hbad & _).
  split; [reflexivity|]. split; [exact Hcarol|].
  split; [apply Hiff; [reflexivity|exact Hcarol]|].
  split; [exact (Hsame Hcarol)|].
  split; [exact Hnul|exact (Hbad Hnul)].
Defined.

(** C10. [ValidateUser] only reads the user and checks name, email and
    password, but it takes the lengths with [len], in bytes, where the
    messages it records say characters.  A password of seven
    characters (thirteen bytes) passes the check "must be at least 8
    characters long" and nothing is recorded; a name of 251 characters
    (502 bytes) fails the check "must not be more than 500 characters
    long". *)
Theorem ValidateUser_measures_bytes {api : ValidatorAPI} {laws : ValidatorLaws api}
    (v : Validator) :
  Matches "alice@example.com" EmailRX = true ->
  characters (Password (alice_with cyrillic_password)) = 7%nat /\
  ValidateUser v (alice_with cyrillic_password) = (v, alice_with cyrillic_password) /\
  characters (Name accented_user) = 251%nat /\
  Valid (ValidateUser v accented_user).1 = false /\
  (ValidateUser v accented_user).2 = accented_user.
Proof.
  intros Hrx.
  destruct (ValidateUser_accepts_exactly v (alice_with cyrillic_password))
    as (_ & Hsame & _ & _).
  destruct (ValidateUser_accepts_exactly v accented_user) as (_ & _ & Hbad & _).
  split; [reflexivity|]. split; [|split; [reflexivity|split; [|reflexivity]]].
  - rewrite <- Hsame at 2; [reflexivity|].
    unfold acceptable. cbn [Name Email Password alice_with].
    repeat split; try discriminate; try exact Hrx; vm_compute; lia.
  - apply Hbad. unfold acceptable. intros (_ & Hlen & _).
    vm_compute in Hlen. lia.
Qed.

Lemma ValidateUser_measures_bytes_witness :
  Matches "alice@example.com" EmailRX = true /\
  characters (Password (alice_with cyrillic_password)) = 7%nat /\
  ValidateUser (∅ : gmap string string) (alice_with cyrillic_password)
    = (∅, alice_with cyrillic_password) /\
  characters (Name accented_user) = 251%nat /\
  Valid (ValidateUser (∅ : gmap string string) accented_user).1 = false /\
  (ValidateUser (∅ : gmap string string) accented_user).2 = accented_user.
Proof.
  split; [reflexivity|].
  apply (ValidateUser_measures_bytes (api := map_validator) ∅). reflexivity.
Defined.

(** What the validator holds after the two runs. *)
Example ValidateUser_short_password_in_characters :
  (ValidateUser (∅ : gmap string string) (alice_with cyrillic_password)).1 = ∅.
Proof. vm_compute. reflexivity. Qed.

Example ValidateUser_long_name_in_bytes :
  (ValidateUser (∅ : gmap string string) accented_user).1
  = {[ "name" := "must not be more than 500 characters long" ]}.
Proof. vm_compute. reflexivity. Qed.

(** * Further properties of the data layer *)

(** ** What the three methods do when the call is served *)

Lemma email_taken_false m except email :
  email_taken m except email = false <->
  forall i r, m !! i = Some r -> Some i <> except -> row_email r <> email.
Proof.
  rewrite <- not_true_iff_false, email_taken_spec. split.
  - intros H i r Hir Hi He. apply H. exists i, r. auto.
  - intros H (i & r & Hir & Hi & He). exact (H i r Hir Hi He).
Qed.

Lemma Insert_served env user w hashedPassword :
  CreateHash env (Password user) = inl hashedPassword ->
  served (conn env) ->
  users (db w) !! users_id_seq (db w) = None ->
  email_taken (users (db w)) None (Email user) = false ->
  Insert env user w =
    Some (None, inserted_user (db w) user,
          {| db := {| users := <[users_id_seq (db w) :=
                                   inserted_row (db w) user hashedPassword]> (users (db w));
                      users_id_seq := users_id_seq (db w) + 1;
                      clock := clock (db w) |};
             issued := issued w ++ [insert_call user hashedPassword];
             waited := waited w + default 0 (latency (conn env)) |}).
Proof.
  intros Hhash Hserved Hfresh Hfree. unfold Insert. rewrite Hhash.
  cbv zeta. fold call_ctx3. unfold bind. rewrite (QueryRow_served _ _ w Hserved).
  unfold insert_user; cbn [run sql]. unfold exec_insert. rewrite Hfresh, Hfree.
  reflexivity.
Qed.

Lemma Update_served env user w hashedPassword r :
  CreateHash env (Password user) = inl hashedPassword ->
  served (conn env) ->
  users (db w) !! ID user = Some r -> row_version r = Version user ->
  email_taken (users (db w)) (Some (ID user)) (Email user) = false ->
  Update env user w =
    Some (None,
          {| ID := ID user; CreatedAt := CreatedAt user; Name := Name user;
             Email := Email user; Password := Password user;
             Activated := Activated user; Version := Version user + 1 |},
          {| db := {| users := <[ID user :=
                                   {| row_created_at := row_created_at r;
                                      row_name := Name user; row_email := Email user;
                                      row_password_hash := hashedPassword;
                                      row_activated := Activated user;
                                      row_version := Version user + 1 |}]> (users (db w));
                      users_id_seq := users_id_seq (db w);
                      clock := clock (db w) |};
             issued := issued w ++ [update_call user hashedPassword];
             waited := waited w + default 0 (latency (conn env)) |}).
Proof.
  intros Hhash Hserved Hr Hv Hfree. unfold Update. rewrite Hhash.
  cbv zeta. fold call_ctx3. unfold bind. rewrite (QueryRow_served _ _ w Hserved).
  unfold update_user; cbn [run sql]. unfold exec_update. rewrite Hr.
  destruct (decide (row_version r = Version user)); [|contradiction].
  rewrite Hfree. cbn. rewrite Hv. reflexivity.
Qed.

Lemma GetByEmail_served env email w :
  served (conn env) ->
  GetByEmail env email w =
    Some (match find_by_email (users (db w)) email with
          | Some (i, r) => (Some (user_of_row i r), None)
          | None => (None, Some ErrRecordNotFound)
          end,
          {| db := db w;
             issued := issued w ++ [{| call_ctx := call_ctx3;
                                       call_stmt := SelectUserByEmail email |}];
             waited := waited w + default 0 (latency (conn env)) |}).
Proof.
  intros Hserved. unfold GetByEmail. cbv zeta. fold call_ctx3. unfold bind.
  rewrite (QueryRow_served _ _ w Hserved).
  unfold select_user_by_email; cbn [run sql]. unfold exec_select_by_email.
  destruct (find_by_email (users (db w)) email) as [[i r]|]; reflexivity.
Qed.

(** The only row that holds an email is the one the lookup finds. *)
Lemma find_by_email_only m email i r :
  m !! i = Some r -> row_email r = email ->
  (forall j r', m !! j = Some r' -> j <> i -> row_email r' <> email) ->
  find_by_email m email = Some (i, r).
Proof.
  intros Hir He Honly.
  destruct (find_by_email m email) as [[j r']|] eqn:Hfind.
  - apply find_by_email_Some in Hfind as [Hj He'].
    destruct (decide (j = i)) as [->|Hne].
    + congruence.
    + destruct (Honly j r' Hj Hne He').
  - destruct (proj1 (find_by_email_None m email) Hfind i r Hir He).
Qed.

Lemma exec_insert_row name email hash activated s v s' :
  exec_insert name email hash activated s = (inr v, s') ->
  users s !! users_id_seq s = None /\ email_taken (users s) None email = false.
Proof.
  unfold exec_insert. destruct (users s !! users_id_seq s); [discriminate|].
  destruct (email_taken (users s) None email); [discriminate|]. auto.
Qed.

(** A nil error from [Insert]: the hash was computed, the call was served,
    the id was free and so was the email. *)
Lemma Insert_nil_inv env user w user' w' :
  Insert env user w = Some (None, user', w') ->
  exists hashedPassword,
    CreateHash env (Password user) = inl hashedPassword /\ served (conn env) /\
    users (db w) !! users_id_seq (db w) = None /\
    email_taken (users (db w)) None (Email user) = false.
Proof.
  unfold Insert. destruct (CreateHash env (Password user)) as [hashed|e]; [|discriminate].
  cbv zeta. fold call_ctx3. unfold bind.
  destruct (QueryRow _ _ _ w) as [[[err|[[id created_at] version]] w1]|] eqn:Hq;
    [|intros _|discriminate].
  { destruct (String.eqb _ _); discriminate. }
  apply QueryRow_row in Hq as (Hserved & Hrun & _).
  apply exec_insert_row in Hrun as [Hfresh Hfree].
  exists hashed. auto.
Qed.

(** A nil error from [Update]: the hash was computed, the call was served,
    the row was there at the submitted version and the email was free. *)
Lemma Update_nil_inv env user w user' w' :
  Update env user w = Some (None, user', w') ->
  exists hashedPassword r,
    CreateHash env (Password user) = inl hashedPassword /\ served (conn env) /\
    users (db w) !! ID user = Some r /\ row_version r = Version user /\
    email_taken (users (db w)) (Some (ID user)) (Email user) = false.
Proof.
  unfold Update. destruct (CreateHash env (Password user)) as [hashed|e]; [|discriminate].
  cbv zeta. fold call_ctx3. unfold bind.
  destruct (QueryRow _ _ _ w) as [[[err|version] w1]|] eqn:Hq; [|intros _|discriminate].
  { destruct (String.eqb _ _); [discriminate|]. destruct (errors_Is _ _); discriminate. }
  apply QueryRow_row in Hq as (Hserved & Hrun & _).
  apply exec_update_row in Hrun as (r & Hr & Hv & Hfree & _ & _).
  exists hashed, r. auto.
Qed.

(** ** Registration *)



(** X2. Insert, then look up by the same email: [GetByEmail] returns the
    user with the id, creation time and version that [Insert] wrote into
    the struct and the submitted name, email and activation flag; its
    [Password] is the stored hash, not the password that was submitted. *)
Theorem Insert_then_GetByEmail (env env' : Env) (user user1 : User) (w w1 : World) :
  Insert env user w = Some (None, user1, w1) ->
  served (conn env') ->
  exists hashedPassword w2,
    CreateHash env (Password user) = inl hashedPassword /\
    GetByEmail env' (Email user) w1 =
      Some (Some {| ID := ID user1; CreatedAt := CreatedAt user1; Name := Name user;
                    Email := Email user; Password := hashedPassword;
                    Activated := Activated user; Version := Version user1 |},
            None, w2) /\
    db w2 = db w1.
Proof.
  intros Hins Hserved'.
  destruct (Insert_nil_inv _ _ _ _ _ Hins) as (hashed & Hhash & Hserved & Hfresh & Hfree).
  rewrite (Insert_served env user w hashed Hhash Hserved Hfresh Hfree) in Hins.
  injection Hins as <- <-.
  exists hashed. eexists. split; [exact Hhash|].
  rewrite (GetByEmail_served env' (Email user) _ Hserved'). cbn [db users].
  rewrite (find_by_email_only _ (Email user) (users_id_seq (db w))
             (inserted_row (db w) user hashed)).
  - split; reflexivity.
  - apply lookup_insert_eq.
  - reflexivity.
  - intros j r' Hj Hne. rewrite lookup_insert_ne in Hj by congruence.
    apply (proj1 (email_taken_false _ _ _) Hfree j r' Hj). discriminate.
Qed.

Lemma Insert_then_GetByEmail_witness :
  exists user1 w1 hashedPassword w2,
    Insert env0 dave world0 = Some (None, user1, w1) /\
    CreateHash env0 (Password dave) = inl hashedPassword /\
    GetByEmail env0 (Email dave) w1 =
      Some (Some {| ID := ID user1; CreatedAt := CreatedAt user1; Name := Name dave;
                    Email := Email dave; Password := hashedPassword;
                    Activated := Activated dave; Version := Version user1 |},
            None, w2) /\
    db w2 = db w1.
Proof.
  destruct (Insert env0 dave world0) as [[[[e|] user1] w1]|] eqn:Hins;
    try (vm_compute in Hins; discriminate Hins).
  destruct (Insert_then_GetByEmail env0 env0 dave user1 world0 w1 Hins)
    as (hashed & w2 & H); [split; reflexivity|].
  exists user1, w1, hashed, w2. split; [reflexivity|exact H].
Defined.



(** ** Updates *)

(** X4. Two updates from the same stale copy: once an [Update] has
    returned nil, a later served [Update] of the same id at the version the
    first one submitted returns [ErrEditConflict] and changes nothing, so
    what the first one wrote is not overwritten. *)
Theorem Update_twice_same_version (env env' : Env) (user user1 other : User) (w w1 : World)
    (hashedPassword : string) :
  Update env user w = Some (None, user1, w1) ->
  ID other = ID user -> Version other = Version user ->
  CreateHash env' (Password other) = inl hashedPassword ->
  served (conn env') ->
  exists w2,
    Update env' other w1 = Some (Some ErrEditConflict, other, w2) /\
    db w2 = db w1.
Proof.
  intros Hupd Hid Hversion Hhash' Hserved'.
  destruct (Update_nil_inv _ _ _ _ _ Hupd) as (hashed & r & Hhash & Hserved & Hr & Hv & Hfree).
  rewrite (Update_served env user w hashed r Hhash Hserved Hr Hv Hfree) in Hupd.
  injection Hupd as _ <-.
  unfold Update. rewrite Hhash'. cbv zeta. fold call_ctx3. unfold bind.
  rewrite (QueryRow_served _ _ _ Hserved').
  unfold update_user; cbn [run sql db].
  rewrite exec_update_no_match.
  - cbn [fst snd]. eexists. split; reflexivity.
  - unfold no_matching_row. cbn [users]. rewrite Hid, lookup_insert_eq.
    cbn [row_version]. lia.
Qed.

Lemma Update_twice_same_version_witness :
  exists user1 w1 w2,
    Update env0 (alice 3) world0 = Some (None, user1, w1) /\
    Update env0 (alice_with "another horse") w1
      = Some (Some ErrEditConflict, alice_with "another horse", w2) /\
    db w2 = db w1.
Proof.
  destruct (Update env0 (alice 3) world0) as [[[[e|] user1] w1]|] eqn:Hupd;
    try (vm_compute in Hupd; discriminate Hupd).
  destruct (Update_twice_same_version env0 env0 (alice 3) user1
              (alice_with "another horse") world0 w1 "$argon2id$another horse")
    as (w2 & H).
  - exact Hupd.
  - reflexivity.
  - reflexivity.
  - reflexivity.
  - split; reflexivity.
  - exists user1, w1, w2. split; [reflexivity|exact H].
Defined.

(** X5. Update, then look up by the submitted email: [GetByEmail] returns
    the user under the same id with the submitted name, email and
    activation flag and the version [Update] wrote into the struct; the
    creation time is the one the row had, and [Password] is the new hash. *)
Theorem Update_then_GetByEmail (env env' : Env) (user user1 : User) (w w1 : World) :
  Update env user w = Some (None, user1, w1) ->
  served (conn env') ->
  exists hashedPassword r w2,
    CreateHash env (Password user) = inl hashedPassword /\
    users (db w) !! ID user = Some r /\
    GetByEmail env' (Email user) w1 =
      Some (Some {| ID := ID user; CreatedAt := row_created_at r; Name := Name user;
                    Email := Email user; Password := hashedPassword;
                    Activated := Activated user; Version := Version user1 |},
            None, w2) /\
    Version user1 = Version user + 1.
Proof.
  intros Hupd Hserved'.
  destruct (Update_nil_inv _ _ _ _ _ Hupd) as (hashed & r & Hhash & Hserved & Hr & Hv & Hfree).
  rewrite (Update_served env user w hashed r Hhash Hserved Hr Hv Hfree) in Hupd.
  injection Hupd as <- <-.
  exists hashed, r. eexists. split; [exact Hhash|]. split; [exact Hr|].
  rewrite (GetByEmail_served env' (Email user) _ Hserved'). cbn [db users].
  rewrite (find_by_email_only _ (Email user) (ID user)
             {| row_created_at := row_created_at r; row_name := Name user;
                row_email := Email user; row_password_hash := hashed;
                row_activated := Activated user; row_version := Version user + 1 |}).
  - split; reflexivity.
  - apply lookup_insert_eq.
  - reflexivity.
  - intros j r' Hj Hne. rewrite lookup_insert_ne in Hj by congruence.
    apply (proj1 (email_taken_false _ _ _) Hfree j r' Hj). congruence.
Qed.

Lemma Update_then_GetByEmail_witness :
  exists user1 w1 hashedPassword r w2,
    Update env0 (alice 3) world0 = Some (None, user1, w1) /\
    CreateHash env0 (Password (alice 3)) = inl hashedPassword /\
    users (db world0) !! ID (alice 3) = Some r /\
    GetByEmail env0 (Email (alice 3)) w1 =
      Some (Some {| ID := ID (alice 3); CreatedAt := row_created_at r;
                    Name := Name (alice 3); Email := Email (alice 3);
                    Password := hashedPassword; Activated := Activated (alice 3);
                    Version := Version user1 |},
            None, w2) /\
    Version user1 = Version (alice 3) + 1.
Proof.
  destruct (Update env0 (alice 3) world0) as [[[[e|] user1] w1]|] eqn:Hupd;
    try (vm_compute in Hupd; discriminate Hupd).
  destruct (Update_then_GetByEmail env0 env0 (alice 3) user1 world0 w1 Hupd)
    as (hashed & r & w2 & H); [split; reflexivity|].
  exists user1, w1, hashed, r, w2. split; [reflexivity|exact H].
Defined.

(** X6. Look a user up and update what came back: [GetByEmail] puts the
    stored hash into [Password] and [Update] hashes [Password], so unless
    the caller sets [Password] in between, the row ends up with the hash
    of its previous hash. *)
Theorem GetByEmail_then_Update_hashes_the_hash (env env' : Env) (email : string)
    (user user1 : User) (w w1 w2 : World) :
  GetByEmail env email w = Some (Some user, None, w1) ->
  Update env' user w1 = Some (None, user1, w2) ->
  exists r r',
    users (db w) !! ID user = Some r /\
    users (db w2) !! ID user = Some r' /\
    CreateHash env' (row_password_hash r) = inl (row_password_hash r').
Proof.
  intros Hget Hupd.
  assert (Hpw : db w1 = db w /\
                exists r, users (db w) !! ID user = Some r /\
                          Password user = row_password_hash r).
  { revert Hget. unfold GetByEmail. cbv zeta. fold call_ctx3. unfold bind.
    destruct (QueryRow _ _ _ w) as [[[err|[id row]] w0]|] eqn:Hq; [| |discriminate].
    - destruct (errors_Is _ _); discriminate.
    - unfold ret. intros H. injection H as <- <-.
      apply QueryRow_row in Hq as (_ & Hrun & _).
      unfold select_user_by_email in Hrun; cbn [run] in Hrun.
      unfold exec_select_by_email in Hrun.
      destruct (find_by_email (users (db w)) email) as [[i r]|] eqn:Hfind; [|discriminate].
      injection Hrun as -> -> Hdb. apply find_by_email_Some in Hfind as [Hir _].
      split; [symmetry; exact Hdb|]. exists row. split; [exact Hir|reflexivity]. }
  destruct Hpw as (Hdb & r & Hr & Hpw).
  destruct (Update_nil_inv _ _ _ _ _ Hupd) as (hashed & r1 & Hhash & Hserved & Hr1 & Hv & Hfree).
  rewrite (Update_served env' user w1 hashed r1 Hhash Hserved Hr1 Hv Hfree) in Hupd.
  injection Hupd as _ <-.
  exists r. eexists. split; [exact Hr|]. cbn [db users].
  split; [apply lookup_insert_eq|]. cbn [row_password_hash].
  rewrite <- Hpw. exact Hhash.
Qed.

Lemma GetByEmail_then_Update_hashes_the_hash_witness :
  exists user w1 user1 w2 r r',
    GetByEmail env0 "bob@example.com" world0 = Some (Some user, None, w1) /\
    Update env0 user w1 = Some (None, user1, w2) /\
    users (db world0) !! ID user = Some r /\
    users (db w2) !! ID user = Some r' /\
    CreateHash env0 (row_password_hash r) = inl (row_password_hash r').
Proof.
  destruct (GetByEmail env0 "bob@example.com" world0) as [[[[user|] [e|]] w1]|] eqn:Hget;
    try (vm_compute in Hget; discriminate Hget).
  destruct (Update env0 user w1) as [[[[e|] user1] w2]|] eqn:Hupd.
  1, 3: exfalso; vm_compute in Hget; injection Hget as <- <-;
        vm_compute in Hupd; discriminate Hupd.
  destruct (GetByEmail_then_Update_hashes_the_hash env0 env0 "bob@example.com"
              user user1 world0 w1 w2) as (r & r' & H); [| exact Hupd |].
  - rewrite Hget. reflexivity.
  - exists user, w1, user1, w2, r, r'. split; [reflexivity|]. split; [exact Hupd|exact H].
Defined.

(** ** Which violation counts as a duplicate email *)

Lemma append_cons (x : ascii) (a b : string) : String x a +:+ b = String x (a +:+ b).
Proof. reflexivity. Qed.

Lemma length_append (a b : string) :
  String.length (a +:+ b) = (String.length a + String.length b)%nat.
Proof.
  induction a as [|c a IH]; [reflexivity|].
  rewrite append_cons. simpl. rewrite IH. reflexivity.
Qed.

Lemma append_assoc (a b c : string) : (a +:+ b) +:+ c = a +:+ (b +:+ c).
Proof.
  induction a as [|x a IH]; [reflexivity|].
  rewrite !append_cons, IH. reflexivity.
Qed.

Lemma append_cancel_l (p a b : string) : p +:+ a = p +:+ b -> a = b.
Proof.
  induction p as [|x p IH]; [exact (fun H => H)|].
  rewrite !append_cons. intros H. injection H as H. apply IH. exact H.
Qed.

Lemma append_cancel_r (a b t : string) : a +:+ t = b +:+ t -> a = b.
Proof.
  revert b. induction a as [|x a IH]; intros [|y b] H.
  - reflexivity.
  - change (t = String y (b +:+ t)) in H. apply (f_equal String.length) in H.
    simpl in H. rewrite length_append in H. lia.
  - change (String x (a +:+ t) = t) in H. apply (f_equal String.length) in H.
    simpl in H. rewrite length_append in H. lia.
  - rewrite !append_cons in H. injection H as -> H. f_equal. apply IH. exact H.
Qed.

Lemma unique_violation_text constraint :
  Error (unique_violation constraint) = duplicate_email_text ->
  constraint = "users_email_key".
Proof.
  set (prefix := "ERROR: duplicate key value violates unique constraint " +:+ dq).
  set (suffix := dq +:+ " (SQLSTATE 23505)").
  assert (Herr : Error (unique_violation constraint) = prefix +:+ constraint +:+ suffix).
  { unfold unique_violation, Error, prefix, suffix.
    rewrite !append_assoc. reflexivity. }
  assert (Hlit : duplicate_email_text = prefix +:+ "users_email_key" +:+ suffix)
    by reflexivity.
  rewrite Herr, Hlit. intros H.
  apply append_cancel_l, append_cancel_r in H. exact H.
Qed.

(** X7. The code tells a duplicate email by the whole text of the error,
    which names the constraint: the text of a unique violation is the
    literal only for [users_email_key].  So when the id sequence has
    fallen behind the stored ids and the store turns a served [Insert]
    down on the primary key, the email being free, [Insert] hands that
    error to the caller as it is; no row changes, the struct is as it
    was, and the sequence value is used up. *)
Theorem primary_key_violation_not_translated (env : Env) (user : User) (w : World)
    (hashedPassword : string) (r : Row) :
  CreateHash env (Password user) = inl hashedPassword ->
  served (conn env) ->
  users (db w) !! users_id_seq (db w) = Some r ->
  ~ email_in_use (db w) None (Email user) ->
  (forall constraint,
     Error (unique_violation constraint) = duplicate_email_text ->
     constraint = "users_email_key") /\
  exists w',
    Insert env user w = Some (Some (unique_violation "users_pkey"), user, w') /\
    users (db w') = users (db w) /\
    users_id_seq (db w') = users_id_seq (db w) + 1.
Proof.
  intros Hhash Hserved Htaken _. split; [exact unique_violation_text|].
  unfold Insert. rewrite Hhash. cbv zeta. fold call_ctx3. unfold bind.
  rewrite (QueryRow_served _ _ w Hserved).
  unfold insert_user; cbn [run sql]. unfold exec_insert. rewrite Htaken. cbn [fst snd].
  assert (Htext : String.eqb (Error (unique_violation "users_pkey")) duplicate_email_text
                  = false) by reflexivity.
  rewrite Htext. eexists. repeat split.
Qed.

Lemma primary_key_violation_not_translated_witness :
  users (db world_behind) !! users_id_seq (db world_behind) = Some bob_row /\
  exists w',
    Insert env0 dave world_behind = Some (Some (unique_violation "users_pkey"), dave, w') /\
    users (db w') = users (db world_behind) /\
    users_id_seq (db w') = users_id_seq (db world_behind) + 1.
Proof.
  split; [reflexivity|].
  apply (primary_key_violation_not_translated env0 dave world_behind
           "$argon2id$tr0ub4dor&3" bob_row).
  - reflexivity.
  - split; reflexivity.
  - reflexivity.
  - intros Huse. apply email_taken_spec in Huse. vm_compute in Huse. discriminate Huse.
Defined.

(** ** What holds whatever the connection does *)

Lemma QueryRow_db {A} (c : Conn) (q : Query A) (w : World) r w' :
  QueryRow c call_ctx3 q w = Some (r, w') ->
  (db w' = db w \/ db w' = (run q (db w)).2) /\
  issued w' = issued w ++ [{| call_ctx := call_ctx3; call_stmt := sql q |}].
Proof.
  intros H. destruct (QueryRow_returns c q w) as (r0 & w0 & Hq & Hlog & _ & Hdb).
  rewrite H in Hq. injection Hq as <- <-. auto.
Qed.

Lemma emails_unique_insert n e h a s :
  emails_unique s -> emails_unique (exec_insert n e h a s).2.
Proof.
  intros Hu. unfold exec_insert.
  destruct (users s !! users_id_seq s) eqn:Hfresh; [exact Hu|].
  destruct (email_taken (users s) None e) eqn:Hfree; [exact Hu|].
  pose proof (proj1 (email_taken_false _ _ _) Hfree) as Hno.
  intros i j r1 r2. cbn [snd users].
  destruct (decide (i = users_id_seq s)) as [->|Hi];
    destruct (decide (j = users_id_seq s)) as [->|Hj];
    rewrite ?lookup_insert_eq, ?lookup_insert_ne by congruence.
  - reflexivity.
  - intros H1 H2 He. injection H1 as <-. cbn in He.
    destruct (Hno j r2 H2); [discriminate|congruence].
  - intros H1 H2 He. injection H2 as <-. cbn in He.
    destruct (Hno i r1 H1); [discriminate|congruence].
  - apply Hu.
Qed.

Lemma emails_unique_update n e h a id v s :
  emails_unique s -> emails_unique (exec_update n e h a id v s).2.
Proof.
  intros Hu. unfold exec_update.
  destruct (users s !! id) as [r|] eqn:Hr; [|exact Hu].
  destruct (decide (row_version r = v)); [|exact Hu].
  destruct (email_taken (users s) (Some id) e) eqn:Hfree; [exact Hu|].
  pose proof (proj1 (email_taken_false _ _ _) Hfree) as Hno.
  intros i j r1 r2. cbn [snd users].
  destruct (decide (i = id)) as [->|Hi]; destruct (decide (j = id)) as [->|Hj];
    rewrite ?lookup_insert_eq, ?lookup_insert_ne by congruence.
  - reflexivity.
  - intros H1 H2 He. injection H1 as <-. cbn in He.
    destruct (Hno j r2 H2); congruence.
  - intros H1 H2 He. injection H2 as <-. cbn in He.
    destruct (Hno i r1 H1); congruence.
  - apply Hu.
Qed.

(** Where a method leaves the store: as it was, or as its one statement
    leaves it. *)
Lemma Insert_db env user w res w' :
  Insert env user w = Some (res, w') ->
  match CreateHash env (Password user) with
  | inl hashedPassword =>
      (db w' = db w \/
       db w' = (exec_insert (Name user) (Email user) hashedPassword (Activated user)
                  (db w)).2) /\
      issued w' = issued w ++ [insert_call user hashedPassword]
  | inr e => res = (Some e, user) /\ w' = w
  end.
Proof.
  unfold Insert. destruct (CreateHash env (Password user)) as [hashed|e].
  - cbv zeta. fold call_ctx3. unfold bind.
    destruct (QueryRow _ _ _ w) as [[r w1]|] eqn:Hq; [|discriminate].
    apply QueryRow_db in Hq. intros H.
    assert (w' = w1) as ->; [|exact Hq].
    destruct r as [err|[[id created_at] version]];
      [destruct (String.eqb _ _)|]; injection H as _ <-; reflexivity.
  - unfold ret. intros H. injection H as <- <-. auto.
Qed.

Lemma Update_db env user w res w' :
  Update env user w = Some (res, w') ->
  match CreateHash env (Password user) with
  | inl hashedPassword =>
      (db w' = db w \/
       db w' = (exec_update (Name user) (Email user) hashedPassword (Activated user)
                  (ID user) (Version user) (db w)).2) /\
      issued w' = issued w ++ [update_call user hashedPassword]
  | inr e => res = (Some e, user) /\ w' = w
  end.
Proof.
  unfold Update. destruct (CreateHash env (Password user)) as [hashed|e].
  - cbv zeta. fold call_ctx3. unfold bind.
    destruct (QueryRow _ _ _ w) as [[r w1]|] eqn:Hq; [|discriminate].
    apply QueryRow_db in Hq. intros H.
    assert (w' = w1) as ->; [|exact Hq].
    destruct r as [err|version];
      [destruct (String.eqb _ _); [|destruct (errors_Is _ _)]|];
      injection H as _ <-; reflexivity.
  - unfold ret. intros H. injection H as <- <-. auto.
Qed.

Lemma GetByEmail_db env email w res w' :
  GetByEmail env email w = Some (res, w') -> db w' = db w.
Proof.
  unfold GetByEmail. cbv zeta. fold call_ctx3. unfold bind.
  destruct (QueryRow _ _ _ w) as [[r w1]|] eqn:Hq; [|discriminate].
  apply QueryRow_db in Hq as [Hdb _]. intros H.
  assert (w' = w1) as ->.
  { destruct r as [err|[id row]]; [destruct (errors_Is _ _)|];
      injection H as _ <-; reflexivity. }
  destruct Hdb as [->| ->]; [reflexivity|].
  unfold select_user_by_email; cbn [run]. unfold exec_select_by_email.
  destruct (find_by_email _ _); reflexivity.
Qed.

(** X8. Whatever the hasher and the connection do (an error, no answer, a
    statement that takes effect although the reply is lost), each of the
    three methods leaves a table with one row per email and every id below
    the sequence in that state. *)
Theorem methods_keep_store_invariants (env : Env) (user : User) (email : string)
    (w : World) :
  emails_unique (db w) -> seq_ahead (db w) ->
  (forall res w', Insert env user w = Some (res, w') ->
                  emails_unique (db w') /\ seq_ahead (db w')) /\
  (forall res w', GetByEmail env email w = Some (res, w') ->
                  emails_unique (db w') /\ seq_ahead (db w')) /\
  (forall res w', Update env user w = Some (res, w') ->
                  emails_unique (db w') /\ seq_ahead (db w')).
Proof.
  intros Hu Hs. split; [|split]; intros res w' H.
  - apply Insert_db in H. destruct (CreateHash env (Password user)) as [hashed|e].
    + destruct H as [[->| ->] _]; [auto|].
      split; [apply emails_unique_insert|apply seq_ahead_insert]; assumption.
    + destruct H as [_ ->]. auto.
  - apply GetByEmail_db in H. rewrite H. auto.
  - apply Update_db in H. destruct (CreateHash env (Password user)) as [hashed|e].
    + destruct H as [[->| ->] _]; [auto|].
      split; [apply emails_unique_update|apply seq_ahead_update]; assumption.
    + destruct H as [_ ->]. auto.
Qed.

Lemma store0_emails_unique : emails_unique store0.
Proof.
  intros i j r1 r2. unfold store0. cbn [users].
  destruct (decide (i = 1)) as [->|Hi1]; destruct (decide (j = 1)) as [->|Hj1];
    rewrite ?lookup_insert_eq, ?lookup_insert_ne by congruence;
    try (destruct (decide (i = 2)) as [->|Hi2]);
    try (destruct (decide (j = 2)) as [->|Hj2]);
    rewrite ?lookup_insert_eq, ?lookup_insert_ne, ?lookup_empty by congruence;
    intros H1 H2 He; try discriminate; try reflexivity;
    injection H1 as <-; injection H2 as <-; discriminate He.
Qed.

Lemma methods_keep_store_invariants_witness :
  emails_unique (db world0) /\ seq_ahead (db world0) /\
  (forall res w', Insert env_stalled dave world0 = Some (res, w') ->
                  emails_unique (db w') /\ seq_ahead (db w')) /\
  (forall res w', GetByEmail env_stalled "bob@example.com" world0 = Some (res, w') ->
                  emails_unique (db w') /\ seq_ahead (db w')) /\
  (forall res w', Update env_stalled dave world0 = Some (res, w') ->
                  emails_unique (db w') /\ seq_ahead (db w')).
Proof.
  assert (Hs : seq_ahead (db world0)) by (apply (bool_decide_unpack _); vm_compute; exact I).
  split; [exact store0_emails_unique|]. split; [exact Hs|].
  apply (methods_keep_store_invariants env_stalled dave "bob@example.com" world0
           store0_emails_unique Hs).
Defined.

(** X9. The password leaves the process hashed: the one statement
    [Insert] or [Update] sends carries the output of [CreateHash] in the
    place of the password, under the three-second context; when
    [CreateHash] fails they return its error, send nothing and touch
    neither the store nor the struct. *)
Theorem password_is_sent_hashed (env : Env) (user : User) (w w' : World)
    (res : option error * User) :
  (Insert env user w = Some (res, w') ->
   match CreateHash env (Password user) with
   | inl hashedPassword => issued w' = issued w ++ [insert_call user hashedPassword]
   | inr e => res = (Some e, user) /\ w' = w
   end) /\
  (Update env user w = Some (res, w') ->
   match CreateHash env (Password user) with
   | inl hashedPassword => issued w' = issued w ++ [update_call user hashedPassword]
   | inr e => res = (Some e, user) /\ w' = w
   end).
Proof.
  split; intros H.
  - apply Insert_db in H. destruct (CreateHash env (Password user)); [apply H|exact H].
  - apply Update_db in H. destruct (CreateHash env (Password user)); [apply H|exact H].
Qed.

Lemma password_is_sent_hashed_witness :
  exists res w',
    Insert env0 dave world0 = Some (res, w') /\
    issued w' = issued world0 ++ [insert_call dave "$argon2id$tr0ub4dor&3"].
Proof.
  destruct (Insert env0 dave world0) as [[res w']|] eqn:Hins;
    [|vm_compute in Hins; discriminate Hins].
  exists res, w'. split; [reflexivity|].
  apply (proj1 (password_is_sent_hashed env0 dave world0 w' res) Hins).
Defined.

Example Insert_without_entropy :
  Insert {| CreateHash := failing_hasher; conn := healthy |} dave world0
  = Some (Some no_entropy, dave, world0).
Proof. reflexivity. Qed.

(** X11. [GetByEmail] answers with a user or with an error, never with
    both and never with neither; a user it returns has the email that was
    asked for, and the store is the same after the call, whatever the
    connection does. *)
Theorem GetByEmail_user_or_error (env : Env) (email : string) (w w' : World)
    (res : option User * option error) :
  GetByEmail env email w = Some (res, w') ->
  db w' = db w /\
  ((exists user, res = (Some user, None) /\ Email user = email) \/
   (exists e, res = (None, Some e))).
Proof.
  intros H. split; [exact (GetByEmail_db _ _ _ _ _ H)|].
  revert H. unfold GetByEmail. cbv zeta. fold call_ctx3. unfold bind.
  destruct (QueryRow _ _ _ w) as [[[err|[id row]] w1]|] eqn:Hq; [| |discriminate].
  - destruct (errors_Is _ _); unfold ret; intros H; injection H as <- _; right; eauto.
  - unfold ret. intros H. injection H as <- _. left. eexists. split; [reflexivity|].
    apply QueryRow_row in Hq as (_ & Hrun & _).
    unfold select_user_by_email in Hrun; cbn [run] in Hrun.
    unfold exec_select_by_email in Hrun.
    destruct (find_by_email (users (db w)) email) as [[i r]|] eqn:Hfind; [|discriminate].
    injection Hrun as -> -> _. apply find_by_email_Some in Hfind as [_ He]. exact He.
Qed.

Lemma GetByEmail_user_or_error_witness :
  exists res w',
    GetByEmail env0 "bob@example.com" world0 = Some (res, w') /\
    db w' = db world0 /\
    ((exists user, res = (Some user, None) /\ Email user = "bob@example.com") \/
     (exists e, res = (None, Some e))).
Proof.
  destruct (GetByEmail env0 "bob@example.com" world0) as [[res w']|] eqn:Hget;
    [|vm_compute in Hget; discriminate Hget].
  exists res, w'. split; [reflexivity|].
  apply (GetByEmail_user_or_error env0 "bob@example.com" world0 w' res Hget).
Defined.

(** * Further properties of the request context *)

Lemma Value_builds_on ctx ctx' :
  builds_on ctx ctx' -> Value ctx' userContextKey = Value ctx userContextKey.
Proof.
  induction 1 as [|ctx' key val _ IH Hkey|ctx' timeout _ IH]; simpl.
  - reflexivity.
  - destruct (decide (key = userContextKey)); [contradiction|exact IH].
  - exact IH.
Qed.

(** X12. A user set on a request stays readable down the chain: on every
    request whose context was built on the one [contextSetUser] made, by
    adding deadlines and values under other keys, [contextGetUser] returns
    that user. *)
Theorem contextGetUser_after_derivation (r r' : Request) (user : UserPtr) :
  builds_on (Request_Context (contextSetUser r user)) (Request_Context r') ->
  contextGetUser r' = Returns user.
Proof.
  intros H. unfold contextGetUser. rewrite (Value_builds_on _ _ H).
  unfold contextSetUser, Request_WithContext, Request_Context. simpl.
  destruct (decide (userContextKey = userContextKey)); [reflexivity|contradiction].
Qed.

Lemma contextGetUser_after_derivation_witness :
  builds_on (Request_Context (contextSetUser plain_request (Some 3%positive)))
            (Request_Context (traced_request (Some 3%positive))) /\
  contextGetUser (traced_request (Some 3%positive)) = Returns (Some 3%positive).
Proof.
  assert (H : builds_on (Request_Context (contextSetUser plain_request (Some 3%positive)))
                        (Request_Context (traced_request (Some 3%positive)))).
  { unfold traced_request, Request_Context at 2. cbn [req_ctx default].
    apply builds_on_value; [|discriminate].
    apply builds_on_timeout, builds_on_same. }
  split; [exact H|].
  apply (contextGetUser_after_derivation plain_request _ _ H).
Defined.

(** X13. [contextSetUser] adds the user and nothing else: the new request
    answers every other key as the old one did and has the same deadline;
    of two users set in turn [contextGetUser] returns the later one. *)
Theorem contextSetUser_frame (r : Request) (user user' : UserPtr) (key : Any) :
  (key <> userContextKey ->
   Value (Request_Context (contextSetUser r user)) key = Value (Request_Context r) key) /\
  Deadline (Request_Context (contextSetUser r user)) = Deadline (Request_Context r) /\
  contextGetUser (contextSetUser (contextSetUser r user) user') = Returns user'.
Proof.
  split; [|split].
  - intros Hkey. unfold contextSetUser, Request_WithContext, Request_Context. simpl.
    destruct (decide (userContextKey = key)); [congruence|reflexivity].
  - reflexivity.
  - unfold contextGetUser, contextSetUser, Request_WithContext, Request_Context. simpl.
    destruct (decide (userContextKey = userContextKey)); [reflexivity|contradiction].
Qed.

Lemma contextSetUser_frame_witness :
  Value (Request_Context (contextSetUser plain_request None)) (string_value "user")
  = Value (Request_Context plain_request) (string_value "user").
Proof.
  apply (contextSetUser_frame plain_request None None (string_value "user")).
  discriminate.
Defined.

(** * Further properties of the start-up *)

Lemma openDB_done sys cfg g : pgOnce (openDB sys cfg g).2 = true.
Proof.
  unfold openDB. destruct (pgOnce g) eqn:Hg; [exact Hg|].
  destruct (once_body sys cfg None (pgInstance g)). reflexivity.
Qed.

Lemma openDB_result sys cfg g : (openDB sys cfg g).1 = (pgInstance (openDB sys cfg g).2, None).
Proof.
  unfold openDB. destruct (pgOnce g); [reflexivity|].
  destruct (once_body sys cfg None (pgInstance g)). reflexivity.
Qed.

Lemma openDB_calls_done calls g :
  pgOnce g = true ->
  openDB_calls calls g = (replicate (length calls) (pgInstance g, None), g).
Proof.
  intros Hg. induction calls as [|[sys cfg] rest IH]; [reflexivity|].
  simpl. rewrite (openDB_later_calls sys cfg g Hg), IH. reflexivity.
Qed.

Lemma openDB_first_call_fails sys cfg :
  startup_fails sys cfg ->
  openDB sys cfg initial_globals = ((None, None), {| pgInstance := None; pgOnce := true |}).
Proof.
  unfold startup_fails, openDB, once_body. simpl.
  destruct (pgxpool_New sys (db_dsn cfg)) as [db|e]; [|reflexivity].
  intros [[e He]|[[e He]|[e He]]].
  - rewrite He. reflexivity.
  - rewrite He. destruct (Atoi sys _); reflexivity.
  - rewrite He. destruct (Atoi sys _); [|reflexivity].
    destruct (ParseDuration sys _); reflexivity.
Qed.

Lemma openDB_first_call_works sys cfg db :
  pgxpool_New sys (db_dsn cfg) = inl db -> ~ startup_fails sys cfg ->
  openDB sys cfg initial_globals
  = ((Some {| pool := db |}, None),
     {| pgInstance := Some {| pool := db |}; pgOnce := true |}).
Proof.
  unfold startup_fails, openDB, once_body. simpl. intros -> Hok.
  destruct (Atoi sys _) as [i|e]; [|destruct Hok; eauto].
  destruct (ParseDuration sys _) as [d|e]; [|destruct Hok; eauto].
  destruct (Ping sys db) as [e|]; [destruct Hok; eauto|reflexivity].
Qed.

(** X14. The once-block runs on the first call and never again: whatever
    platform and configuration the later calls are made with, each of them
    returns what the first call returned and leaves the globals alone.  A
    first call that failed is therefore not retried: every later call
    returns nil and nil again. *)
Theorem openDB_runs_once (sys : Platform) (cfg : config) (g : Globals)
    (calls : list (Platform * config)) :
  openDB_calls calls (openDB sys cfg g).2
  = (replicate (length calls) (openDB sys cfg g).1, (openDB sys cfg g).2) /\
  (startup_fails sys cfg ->
   openDB_calls ((sys, cfg) :: calls) initial_globals
   = (replicate (S (length calls)) (None, None), {| pgInstance := None; pgOnce := true |})).
Proof.
  assert (Hall : openDB_calls calls (openDB sys cfg g).2
                 = (replicate (length calls) (openDB sys cfg g).1, (openDB sys cfg g).2)).
  { rewrite (openDB_calls_done calls _ (openDB_done sys cfg g)), <- openDB_result.
    reflexivity. }
  split; [exact Hall|].
  intros Hfail.
  cbn [openDB_calls]. rewrite (openDB_first_call_fails sys cfg Hfail).
  rewrite (openDB_calls_done calls {| pgInstance := None; pgOnce := true |} eq_refl).
  reflexivity.
Qed.

Lemma openDB_runs_once_witness :
  startup_fails unreachable_platform (sample_config "25") /\
  openDB_calls [ (unreachable_platform, sample_config "25");
                 (sample_platform, sample_config "25");
                 (sample_platform, sample_config "25") ] initial_globals
  = ([ (None, None); (None, None); (None, None) ],
     {| pgInstance := None; pgOnce := true |}).
Proof.
  assert (H : startup_fails unreachable_platform (sample_config "25"))
    by (right; right; eexists; reflexivity).
  split; [exact H|].
  apply (proj2 (openDB_runs_once unreachable_platform (sample_config "25") initial_globals
                  [ (sample_platform, sample_config "25");
                    (sample_platform, sample_config "25") ]) H).
Defined.

(** X15. When the environment file loads and the flags parse but a step
    of the once-block fails, [main] gets a nil [*postgres] with a nil error
    from [openDB], skips [PrintFatal], and panics on [db.pool] in the
    [defer] statement: the process dies of a nil dereference with nothing
    logged, the cause of the failure included. *)
Theorem main_panics_when_startup_fails (h : Host) (sys : Platform) (cfg : config) :
  godotenv_Load h = None ->
  flag_Parse h = Some cfg ->
  startup_fails sys cfg ->
  main h sys initial_globals = ([], process_panics nil_dereference).
Proof.
  intros Hload Hflags Hfail. unfold main. rewrite Hload, Hflags.
  cbn [and_then pure]. rewrite (openDB_first_call_fails sys cfg Hfail). reflexivity.
Qed.

Lemma main_panics_when_startup_fails_witness :
  startup_fails sample_platform (sample_config "many") /\
  main (sample_host "many") sample_platform initial_globals
  = ([], process_panics nil_dereference).
Proof.
  assert (H : startup_fails sample_platform (sample_config "many"))
    by (left; eexists; vm_compute; reflexivity).
  split; [exact H|].
  apply (main_panics_when_startup_fails (sample_host "many") sample_platform
           (sample_config "many") eq_refl eq_refl H).
Defined.

(** X16. When the environment file loads, the flags parse and the
    start-up works, [main] logs that the pool is established and that the
    server starts (with its address and the environment), then serves on
    [Sprintf(":" + port)] with models that all hold the pool [openDB]
    published.  The deferred [Close] of the pool runs only if
    [ListenAndServe] returns and [PrintFatal] comes back; if [PrintFatal]
    ends the process, the pool is never closed. *)
Theorem main_serves_with_the_pool (h : Host) (sys : Platform) (cfg : config) (db : Pool) :
  godotenv_Load h = None ->
  flag_Parse h = Some cfg ->
  pgxpool_New sys (db_dsn cfg) = inl db ->
  ~ startup_fails sys cfg ->
  let addr := Sprintf h (":" +:+ port cfg) in
  let models := {| Movies := {| MovieModel_DB := db |};
                   Tokens := {| TokenModel_DB := db |};
                   Users := {| UserModel_DB := db |} |} in
  main h sys initial_globals =
    ([ PrintInfo "database connection pool established" ∅;
       PrintInfo "starting server" (<["addr" := addr]> (<["env" := env cfg]> ∅));
       ListenAndServe addr {| app_config := cfg; app_models := models |} ]
     ++ match serve h addr with
        | Some err => PrintFatal err :: (if fatal_exits h then [] else [PoolClose db])
        | None => []
        end,
     match serve h addr with
     | Some _ => if fatal_exits h then process_exits else main_returns
     | None => serves_forever
     end).
Proof.
  intros Hload Hflags Hnew Hok addr models. unfold main. rewrite Hload, Hflags.
  cbn [and_then pure]. rewrite (openDB_first_call_works sys cfg db Hnew Hok).
  cbn [pool]. fold addr. unfold NewModels. fold models.
  destruct (serve h addr) as [err|] eqn:Hserve.
  - unfold fatal. destruct (fatal_exits h); reflexivity.
  - reflexivity.
Qed.

Lemma main_serves_with_the_pool_witness :
  ~ startup_fails sample_platform (sample_config "25") /\
  exists events,
    main (sample_host "25") sample_platform initial_globals = (events, process_exits) /\
    PoolClose {| pool_dsn := "postgres://greenlight@localhost/greenlight" |} ∉ events.
Proof.
  assert (H : ~ startup_fails sample_platform (sample_config "25")).
  { intros [[e He]|[[e He]|[e He]]]; vm_compute in He; discriminate He. }
  split; [exact H|].
  eexists. split.
  - apply (main_serves_with_the_pool (sample_host "25") sample_platform
             (sample_config "25") _ eq_refl eq_refl eq_refl H).
  - cbn. intros Hin. repeat (apply elem_of_cons in Hin as [Hin|Hin]; [discriminate Hin|]).
    apply elem_of_nil in Hin. exact Hin.
Defined.

(** * Further properties of validation and of the rows *)

Section FieldValidators.
Context {api : ValidatorAPI} {laws : ValidatorLaws api}.

(** X17. [ValidateEmail] and [ValidatePasswordPlaintext] on their own.  An
    email that is non-empty and matches the pattern, and a password of 8
    to 72 bytes, leave the validator as it was; anything else leaves it
    with an error.  For the password the check "must be provided" never
    decides: the two bounds do.  Neither function clears an error the
    validator already holds. *)
Theorem field_validators_accept_exactly (v : Validator) (email password : string) :
  (email <> "" /\ Matches email EmailRX = true -> ValidateEmail v email = v) /\
  (~ (email <> "" /\ Matches email EmailRX = true) ->
   Valid (ValidateEmail v email) = false) /\
  ((8 <= String.length password <= 72)%nat -> ValidatePasswordPlaintext v password = v) /\
  (~ (8 <= String.length password <= 72)%nat ->
   Valid (ValidatePasswordPlaintext v password) = false) /\
  (Valid v = false ->
   Valid (ValidateEmail v email) = false /\
   Valid (ValidatePasswordPlaintext v password) = false).
Proof.
  assert (He : Valid (ValidateEmail v email)
               = Valid v && nonempty email && Matches email EmailRX)
    by (unfold ValidateEmail; rewrite !Valid_Check; reflexivity).
  assert (Hp : Valid (ValidatePasswordPlaintext v password)
               = Valid v && nonempty password && (8 <=? String.length password)%nat
                 && (String.length password <=? 72)%nat)
    by (unfold ValidatePasswordPlaintext; rewrite !Valid_Check; reflexivity).
  split; [|split; [|split; [|split]]].
  - intros [Hne Hrx]. unfold ValidateEmail.
    rewrite (proj2 (nonempty_true _) Hne), Hrx, !Check_holds. reflexivity.
  - intros Hno. rewrite He. apply not_true_is_false. intros H.
    apply Hno. rewrite !andb_true_iff, nonempty_true in H. tauto.
  - intros [Hlo Hhi]. unfold ValidatePasswordPlaintext.
    rewrite (length_8_nonempty _ Hlo), (proj2 (Nat.leb_le _ _) Hlo),
      (proj2 (Nat.leb_le _ _) Hhi), !Check_holds. reflexivity.
  - intros Hno. rewrite Hp. apply not_true_is_false. intros H.
    apply Hno. rewrite !andb_true_iff, !Nat.leb_le in H. tauto.
  - intros Hv. rewrite He, Hp, Hv. split; reflexivity.
Qed.
End FieldValidators.

Lemma field_validators_accept_exactly_witness :
  ValidateEmail (∅ : gmap string string) "carol@example.com" = ∅ /\
  Valid (ValidateEmail (∅ : gmap string string) "carol.example.com") = false /\
  ValidatePasswordPlaintext (∅ : gmap string string) "pa55word!" = ∅ /\
  Valid (ValidatePasswordPlaintext (∅ : gmap string string) "hunter2") = false.
Proof.
  destruct (field_validators_accept_exactly (api := map_validator) ∅
              "carol@example.com" "pa55word!") as (Hemail & _ & Hpassword & _).
  destruct (field_validators_accept_exactly (api := map_validator) ∅
              "carol.example.com" "hunter2") as (_ & Hbad_email & _ & Hbad_password & _).
  split; [apply Hemail; split; [discriminate|reflexivity]|].
  split; [apply Hbad_email; intros [_ H]; vm_compute in H; discriminate H|].
  split; [apply Hpassword; simpl; lia|].
  apply Hbad_password. simpl. lia.
Defined.

(** X18. Which rows a method can touch, whatever the connection does.
    [Insert] leaves every existing row as it is; [Update] neither adds nor
    removes a row and leaves every row but the one with the struct's id
    as it is. *)
Theorem rows_out_of_reach (env : Env) (user : User) (w w' : World)
    (res : option error * User) :
  (Insert env user w = Some (res, w') ->
   forall j r, users (db w) !! j = Some r -> users (db w') !! j = Some r) /\
  (Update env user w = Some (res, w') ->
   (forall j, j <> ID user -> users (db w') !! j = users (db w) !! j) /\
   (forall j, is_Some (users (db w') !! j) <-> is_Some (users (db w) !! j))).
Proof.
  split; intros H.
  - apply Insert_db in H. destruct (CreateHash env (Password user)) as [hashed|e].
    + destruct H as [[->| ->] _]; [auto|]. intros j r Hj.
      unfold exec_insert.
      destruct (users (db w) !! users_id_seq (db w)) eqn:Hfresh; [exact Hj|].
      destruct (email_taken _ _ _); [exact Hj|]. cbn [snd users].
      rewrite lookup_insert_ne; [exact Hj|]. intros <-. congruence.
    + destruct H as [_ ->]. auto.
  - apply Update_db in H. destruct (CreateHash env (Password user)) as [hashed|e].
    + destruct H as [[->| ->] _]; [split; reflexivity|].
      unfold exec_update.
      destruct (users (db w) !! ID user) as [r|] eqn:Hr; [|split; reflexivity].
      destruct (decide _); [|split; reflexivity].
      destruct (email_taken _ _ _); [split; reflexivity|]. cbn [snd users].
      split; intros j.
      * intros Hj. apply lookup_insert_ne. congruence.
      * destruct (decide (j = ID user)) as [->|Hj].
        -- rewrite lookup_insert_eq, Hr. split; eauto.
        -- rewrite lookup_insert_ne by congruence. reflexivity.
    + destruct H as [_ ->]. split; reflexivity.
Qed.

Lemma rows_out_of_reach_witness :
  exists res w',
    Update env0 (alice 3) world0 = Some (res, w') /\
    (forall j, j <> ID (alice 3) -> users (db w') !! j = users (db world0) !! j) /\
    (forall j, is_Some (users (db w') !! j) <-> is_Some (users (db world0) !! j)).
Proof.
  destruct (Update env0 (alice 3) world0) as [[res w']|] eqn:Hupd;
    [|vm_compute in Hupd; discriminate Hupd].
  exists res, w'. split; [reflexivity|].
  apply (proj2 (rows_out_of_reach env0 (alice 3) world0 w' res) Hupd).
Defined.

(** * Further properties of the later [main] *)

(** X19. In the revision with the mailer, an SMTP port that
    [strconv.Atoi] does not accept makes [main] return right after the
    pool is established: it logs that line, runs the deferred [Close] of
    the pool and ends normally, without [PrintFatal], without building the
    application and without serving. *)
Theorem later_main_returns_on_bad_smtp_port (h : Later.Host) (sys : Platform)
    (cfg : Later.config) (db : Pool) (e : error) :
  Later.godotenv_Load h = None ->
  Later.flag_Parse h = Some cfg ->
  pgxpool_New sys (db_dsn (Later.shared cfg)) = inl db ->
  ~ startup_fails sys (Later.shared cfg) ->
  Atoi sys (Later.smtp_port cfg) = inr e ->
  Later.main h sys initial_globals
  = ([ Later.PrintInfo "database connection pool established" ∅; Later.PoolClose db ],
     main_returns).
Proof.
  intros Hload Hflags Hnew Hok Hport. unfold Later.main. rewrite Hload, Hflags.
  cbn [and_then pure].
  rewrite (openDB_first_call_works sys (Later.shared cfg) db Hnew Hok).
  cbn [pool]. rewrite Hport. reflexivity.
Qed.

Lemma later_main_returns_on_bad_smtp_port_witness :
  ~ startup_fails sample_platform (sample_config "25") /\
  Later.main (Later.sample_host "smtp") sample_platform initial_globals
  = ([ Later.PrintInfo "database connection pool established" ∅;
       Later.PoolClose {| pool_dsn := "postgres://greenlight@localhost/greenlight" |} ],
     main_returns).
Proof.
  assert (H : ~ startup_fails sample_platform (sample_config "25")).
  { intros [[e He]|[[e He]|[e He]]]; vm_compute in He; discriminate He. }
  split; [exact H|].
  eapply (later_main_returns_on_bad_smtp_port (Later.sample_host "smtp") sample_platform
            _ _ _ eq_refl eq_refl eq_refl H).
  vm_compute. reflexivity.
Defined.
